(** * prep_restore: the COPY-block rewriting pass of [dev/prep_restore.py]

    A shallow embedding of the line-oriented rewriter of [main], together
    with the string and regular-expression primitives of the Python
    standard library that it calls.

    Text is modelled as [list ascii]: every character is a code point below
    256.  On these code points [isspace] below is exactly Python's
    [str.isspace] (which is also what [\s] matches in a [str] pattern), and
    case-insensitive matching of the ASCII letters of the pattern accepts
    exactly their two ASCII cases. *)

From Stdlib Require Import Ascii String Bool Arith Lia List.
Import ListNotations.

Set Implicit Arguments.

(** ** Characters and strings *)

Definition str := list ascii.

(** A string literal as a [str]. *)
Definition chars (s : string) : str := list_ascii_of_string s.

Definition LF : ascii := "010"%char.
Definition CR : ascii := "013"%char.
Definition TAB : ascii := "009"%char.

Definition str_eqb (a b : str) : bool :=
  if list_eq_dec ascii_dec a b then true else false.

(** [str.isspace] for one character (code points below 256). *)
Definition isspace (c : ascii) : bool :=
  let n := nat_of_ascii c in
  ((9 <=? n) && (n <=? 13)) || ((28 <=? n) && (n <=? 32))
  || (n =? 133) || (n =? 160).

Definition notspace (c : ascii) : bool := negb (isspace c).

(** Lower-casing of the ASCII letters, as used by [re.IGNORECASE]. *)
Definition lower (c : ascii) : ascii :=
  let n := nat_of_ascii c in
  if (65 <=? n) && (n <=? 90) then ascii_of_nat (n + 32) else c.

(** [s.lstrip(chars)], [s.rstrip(chars)] and [s.strip()], with the set of
    stripped characters given as a predicate. *)
Fixpoint lstrip (p : ascii -> bool) (s : str) : str :=
  match s with
  | c :: s' => if p c then lstrip p s' else s
  | [] => []
  end.

Definition rstrip (p : ascii -> bool) (s : str) : str :=
  rev (lstrip p (rev s)).

Definition strip (s : str) : str := rstrip isspace (lstrip isspace s).

Definition is_LF (c : ascii) : bool := Ascii.eqb c LF.

(** [s.split(sep)] for a one-character separator: never the empty list. *)
Fixpoint split (sep : ascii) (s : str) : list str :=
  match s with
  | [] => [[]]
  | c :: s' =>
      if Ascii.eqb c sep then [] :: split sep s'
      else match split sep s' with
           | f :: fs => (c :: f) :: fs
           | [] => [[c]]
           end
  end.

(** [sep.join(l)]. *)
Fixpoint join (sep : str) (l : list str) : str :=
  match l with
  | [] => []
  | x :: l' =>
      match l' with
      | [] => x
      | _ :: _ => x ++ sep ++ join sep l'
      end
  end.

(** ** Text files

    [open(path, "r")] reads with universal newlines: [\r\n] and a lone [\r]
    arrive as [\n].  [for line in fin] then yields the pieces that end after
    each [\n], the last one possibly without it.  Writing is modelled for a
    platform whose line separator is [\n], so that the file written is the
    concatenation of the strings passed to [write]. *)

Fixpoint universal_newlines (s : str) : str :=
  match s with
  | [] => []
  | c :: s' =>
      if Ascii.eqb c CR then
        match s' with
        | c' :: s'' =>
            if Ascii.eqb c' LF then LF :: universal_newlines s''
            else LF :: universal_newlines s'
        | [] => [LF]
        end
      else c :: universal_newlines s'
  end.

Fixpoint readlines (s : str) : list str :=
  match s with
  | [] => []
  | c :: s' =>
      if Ascii.eqb c LF then [c] :: readlines s'
      else match readlines s' with
           | l :: ls => (c :: l) :: ls
           | [] => [[c]]
           end
  end.

Definition file_lines (content : str) : list str :=
  readlines (universal_newlines content).

(** ** Regular expressions

    The fragment of [re] that [copy_header_pattern] uses: literal
    characters, greedy [+] and [*] over a character class, concatenation
    and capturing groups.  [rmatch] is the backtracking matcher of
    [Pattern.match]: anchored at the start of the string, a greedy
    quantifier takes the longest run first and gives characters back one at
    a time when the rest of the pattern fails. *)

Module Re.

Inductive regex : Type :=
| Lit (c : ascii)
| Plus (p : ascii -> bool)
| Star (p : ascii -> bool)
| Cat (r1 r2 : regex)
| Group (r : regex).

(** A literal string is the concatenation of its characters. *)
Fixpoint lits (c : ascii) (s : str) : regex :=
  match s with
  | [] => Lit c
  | c' :: s' => Cat (Lit c) (lits c' s')
  end.

(** One literal character against one input character. *)
Definition char_match (ignorecase : bool) (c c' : ascii) : bool :=
  if ignorecase then Ascii.eqb (lower c) (lower c') else Ascii.eqb c c'.

Section Matcher.
Variable ignorecase : bool.
Variable A : Type.

Fixpoint greedy (p : ascii -> bool) (s : str) (k : str -> option A)
  : option A :=
  match s with
  | c :: s' =>
      if p c then
        match greedy p s' k with
        | Some a => Some a
        | None => k s
        end
      else k s
  | [] => k []
  end.

(** [gs] are the groups closed so far, in the order of their numbers. *)
Fixpoint rmatch (r : regex) (s : str) (gs : list str)
    (k : str -> list str -> option A) : option A :=
  match r with
  | Lit c =>
      match s with
      | c' :: s' => if char_match ignorecase c c' then k s' gs else None
      | [] => None
      end
  | Plus p =>
      match s with
      | c :: s' =>
          if p c then greedy p s' (fun rest => k rest gs) else None
      | [] => None
      end
  | Star p => greedy p s (fun rest => k rest gs)
  | Cat r1 r2 => rmatch r1 s gs (fun s1 gs1 => rmatch r2 s1 gs1 k)
  | Group r1 =>
      rmatch r1 s gs
        (fun s1 gs1 => k s1 (gs1 ++ [firstn (length s - length s1) s]))
  end.
End Matcher.

(** [pattern.match(s)]: the groups of the first match found, and what is
    left of [s] after the match. *)
Definition re_match (ignorecase : bool) (r : regex) (s : str)
  : option (list str * str) :=
  rmatch ignorecase r s [] (fun rest gs => Some (gs, rest)).

End Re.

Import Re.

(** [copy_header_pattern], compiled with [re.IGNORECASE].  Read left to
    right, the source pattern is: the anchor [^]; group 1, the letters COPY
    then [\s+]; group 2, [\S+]; group 3, [\s+]; an escaped opening
    parenthesis; group 4, the class of every character but the closing
    parenthesis, under a greedy star; an escaped closing parenthesis;
    group 5, [\s+], the letters FROM, [\s+], and the letters stdin with a
    semicolon.  [Pattern.match] is anchored at the start, which is all the
    anchor asks for. *)
Definition not_rparen (c : ascii) : bool := negb (Ascii.eqb c ")"%char).

Definition copy_header_pattern : regex :=
  Cat (Group (Cat (lits "C" (chars "OPY")) (Plus isspace)))
 (Cat (Group (Plus notspace))
 (Cat (Group (Plus isspace))
 (Cat (Lit "(")
 (Cat (Group (Star not_rparen))
 (Cat (Lit ")")
      (Group (Cat (Plus isspace)
             (Cat (lits "F" (chars "ROM"))
             (Cat (Plus isspace)
                  (lits "s" (chars "tdin;"))))))))))).

(** The match object of [copy_header_pattern.match(line)], as its five
    groups. *)
Record header_match : Type := {
  m_prefix : str;
  m_full_table : str;
  m_spacer : str;
  m_orig_cols : str;
  m_suffix : str
}.

Definition copy_header_match (line : str) : option header_match :=
  match re_match true copy_header_pattern line with
  | Some ([g1; g2; g3; g4; g5], _) =>
      Some {| m_prefix := g1; m_full_table := g2; m_spacer := g3;
              m_orig_cols := g4; m_suffix := g5 |}
  | _ => None
  end.


(** ** The rewriter

    The three variables that [main] keeps across lines. *)
Record block_state : Type := {
  in_copy_block : bool;
  expected_col_count : option nat;   (* [None] is Python's [None]: unknown *)
  current_table : option str
}.

(** Their values before the first line. *)
Definition initial_state : block_state :=
  {| in_copy_block := false; expected_col_count := Some 0;
     current_table := None |}.

(** What a line makes the program do: [fout.write] and [print]. *)
Inductive message : Type :=
| Rewrote (full_table : str) (count : nat)
| CouldNotGetColumns (full_table : str)
| FinishedBlock (table : option str).

Inductive effect : Type :=
| Write (s : str)
| Print (m : message).

(** What was written to [fout], in order. *)
Fixpoint written (es : list effect) : list str :=
  match es with
  | [] => []
  | Write s :: es' => s :: written es'
  | Print _ :: es' => written es'
  end.

(** The two repairs of a data row, in the order of the source: when there
    is exactly one field too many and the last field is the empty string,
    [fields[:-1]]; then, when there are still too many fields,
    [fields[:expected_col_count]]. *)
Definition fix_fields (expected : nat) (fields : list str) : list str :=
  let fields :=
    if (length fields =? expected + 1) && str_eqb (last fields []) []
    then removelast fields else fields in
  if expected <? length fields then firstn expected fields else fields.

Section Rewriter.

(** [get_target_columns(full_table, container, db_user, db_name)] for the
    container, user and database of the run: the lookup in the target
    database, which the rewriter only calls. *)
Variable get_target_columns : str -> list str.

(** The body of [for line in fin]. *)
Definition process_line (st : block_state) (line : str)
  : block_state * list effect :=
  match copy_header_match line with
  | Some m =>
      let prefix := m_prefix m in
      let full_table := m_full_table m in
      let spacer := m_spacer m in
      let suffix := m_suffix m in
      let target_cols_list := get_target_columns full_table in
      match target_cols_list with
      | _ :: _ =>
          let expected := length target_cols_list in
          let new_header :=
            prefix ++ full_table ++ spacer ++ chars "("
              ++ join (chars ", ") target_cols_list ++ chars ")" ++ suffix in
          ({| in_copy_block := true; expected_col_count := Some expected;
              current_table := Some full_table |},
           [Write (new_header ++ [LF]); Print (Rewrote full_table expected)])
      | [] =>
          ({| in_copy_block := true; expected_col_count := None;
              current_table := Some full_table |},
           [Write line; Print (CouldNotGetColumns full_table)])
      end
  | None =>
      if in_copy_block st then
        if str_eqb (strip line) (chars "\.") then
          ({| in_copy_block := false; expected_col_count := Some 0;
              current_table := None |},
           [Write line; Print (FinishedBlock (current_table st))])
        else
          match expected_col_count st with
          | Some expected =>
              let row := rstrip is_LF line in
              let fields := split TAB row in
              let new_line := join [TAB] (fix_fields expected fields) ++ [LF] in
              (st, [Write new_line])
          | None => (st, [Write line])
          end
      else (st, [Write line])
  end.

(** The loop over the lines of the input. *)
Fixpoint process_lines (st : block_state) (lines : list str)
  : block_state * list effect :=
  match lines with
  | [] => (st, [])
  | line :: rest =>
      let (st1, es1) := process_line st line in
      let (st2, es2) := process_lines st1 rest in
      (st2, es1 ++ es2)
  end.

(** The run from the content of the input file to the content of the
    output file, once the two files are open and a container was found. *)
Definition main (content : str) : str :=
  concat (written (snd (process_lines initial_state (file_lines content)))).

End Rewriter.


(** ** What the pattern accepts

    [lang ic r w gs]: the regular expression [r] accepts exactly the word
    [w], closing the groups [gs] on the way.  This is the set of all the
    ways [r] can match, with no order among them; [rmatch] searches it. *)
Inductive lang (ic : bool) : regex -> str -> list str -> Prop :=
| L_Lit c c' :
    char_match ic c c' = true -> lang ic (Lit c) [c'] []
| L_Plus p w :
    w <> [] -> forallb p w = true -> lang ic (Plus p) w []
| L_Star p w :
    forallb p w = true -> lang ic (Star p) w []
| L_Cat r1 r2 w1 w2 g1 g2 :
    lang ic r1 w1 g1 -> lang ic r2 w2 g2 ->
    lang ic (Cat r1 r2) (w1 ++ w2) (g1 ++ g2)
| L_Group r w g :
    lang ic r w g -> lang ic (Group r) w (g ++ [w]).

(** [w] is the literal [l] up to the case of its letters. *)
Definition same_letters (l w : str) : Prop := map lower w = map lower l.

(** A run of one or more characters of the class [p]. *)
Definition run1 (p : ascii -> bool) (w : str) : Prop :=
  w <> [] /\ forallb p w = true.

(** The text [w] that a match of [copy_header_pattern] covers, and its
    groups. *)
Record header_shape (w : str) (m : header_match) : Prop := {
  hs_text :
    w = m_prefix m ++ m_full_table m ++ m_spacer m ++ chars "("
          ++ m_orig_cols m ++ chars ")" ++ m_suffix m;
  hs_prefix :
    exists kw ws, m_prefix m = kw ++ ws /\
      same_letters (chars "COPY") kw /\ run1 isspace ws;
  hs_full_table : run1 notspace (m_full_table m);
  hs_spacer : run1 isspace (m_spacer m);
  hs_orig_cols : forallb not_rparen (m_orig_cols m) = true;
  hs_suffix :
    exists ws1 kw1 ws2 kw2, m_suffix m = ws1 ++ kw1 ++ ws2 ++ kw2 /\
      run1 isspace ws1 /\ same_letters (chars "FROM") kw1 /\
      run1 isspace ws2 /\ same_letters (chars "stdin;") kw2
}.

(** The groups of a match, in the order of their numbers. *)
Definition groups (m : header_match) : list str :=
  [m_prefix m; m_full_table m; m_spacer m; m_orig_cols m; m_suffix m].

(** The character [c] does not occur in [s]. *)
Definition has_no (c : ascii) (s : str) : Prop := ~ In c s.

(** The first character of [x], if there is one, is outside [p]. *)
Definition stops (p : ascii -> bool) (x : str) : Prop :=
  match x with
  | [] => True
  | c :: _ => p c = false
  end.

(** ** Vocabulary of the properties *)

(** The block terminator: a line whose stripped content is backslash-dot. *)
Definition is_terminator (line : str) : Prop := strip line = chars "\.".

(** A line that the loop handles as a data row of the open block: it is
    read while [in_copy_block] holds, is not taken for a header and is not
    the terminator. *)
Definition data_row (st : block_state) (line : str) : Prop :=
  in_copy_block st = true /\ copy_header_match line = None /\
  ~ is_terminator line.

(** The row of a line and its tab-separated fields, as the loop computes
    them. *)
Definition row_of (line : str) : str := rstrip is_LF line.
Definition fields_of (line : str) : list str := split TAB (row_of line).
Definition field_count (line : str) : nat := length (fields_of line).

(** The states in which a block is read: with [n] known columns, and with
    an unknown count. *)
Definition known_block (t : str) (n : nat) : block_state :=
  {| in_copy_block := true; expected_col_count := Some n;
     current_table := Some t |}.

Definition unknown_block (t : str) : block_state :=
  {| in_copy_block := true; expected_col_count := None;
     current_table := Some t |}.

(** The state variables agree with the lookup: an open block has a current
    table, and its expected count is what the lookup of that table gave
    when the header was read. *)
Definition consistent (get_target_columns : str -> list str)
    (st : block_state) : Prop :=
  in_copy_block st = true ->
  exists t, current_table st = Some t /\
    expected_col_count st =
      match get_target_columns t with
      | [] => None
      | _ :: _ => Some (length (get_target_columns t))
      end.

(** What a run writes, line by line. *)
Definition output_lines (get_target_columns : str -> list str)
    (st : block_state) (lines : list str) : list str :=
  written (snd (process_lines get_target_columns st lines)).

(** The header that replaces a matched one, and the groups with which it
    matches in its turn. *)
Definition rewritten_header (m : header_match) (cols : list str) : str :=
  m_prefix m ++ m_full_table m ++ m_spacer m ++ chars "("
    ++ join (chars ", ") cols ++ chars ")" ++ m_suffix m.

Definition with_cols (m : header_match) (cols : list str) : header_match :=
  {| m_prefix := m_prefix m; m_full_table := m_full_table m;
     m_spacer := m_spacer m; m_orig_cols := join (chars ", ") cols;
     m_suffix := m_suffix m |}.

(** The six ways through the loop body, as a relation between the state
    and the line read, and the next state and the string written. *)
Inductive step (get_target_columns : str -> list str)
    (st : block_state) (line : str) : block_state -> str -> Prop :=
| step_rewrite m c cs :
    copy_header_match line = Some m ->
    get_target_columns (m_full_table m) = c :: cs ->
    step get_target_columns st line
         (known_block (m_full_table m) (length (c :: cs)))
         (rewritten_header m (c :: cs) ++ [LF])
| step_keep_header m :
    copy_header_match line = Some m ->
    get_target_columns (m_full_table m) = [] ->
    step get_target_columns st line (unknown_block (m_full_table m)) line
| step_terminator :
    in_copy_block st = true -> is_terminator line ->
    step get_target_columns st line initial_state line
| step_row n :
    data_row st line -> expected_col_count st = Some n ->
    step get_target_columns st line st
         (join [TAB] (firstn n (fields_of line)) ++ [LF])
| step_row_unknown :
    data_row st line -> expected_col_count st = None ->
    step get_target_columns st line st line
| step_outside :
    in_copy_block st = false -> copy_header_match line = None ->
    step get_target_columns st line st line.

(** ** Lines of a text file *)

(** A character that is not a line break. *)
Definition plain_char (c : ascii) : bool :=
  negb (Ascii.eqb c LF) && negb (Ascii.eqb c CR).

Definition not_CR (c : ascii) : bool := negb (Ascii.eqb c CR).

Definition clean (s : str) : Prop := forallb plain_char s = true.

(** A line that ends in its newline, and a last line that has none. *)
Definition line_ok (l : str) : Prop :=
  exists body, l = body ++ [LF] /\ clean body.

Definition last_ok (l : str) : Prop := l <> [] /\ clean l.

Definition file_line (l : str) : Prop := line_ok l \/ last_ok l.

(** The lists of lines that reading a file can give. *)
Inductive wf_lines : list str -> Prop :=
| wf_nil : wf_lines []
| wf_last l : last_ok l -> wf_lines [l]
| wf_cons l ls : line_ok l -> wf_lines ls -> wf_lines (l :: ls).

(** Column names without a closing parenthesis and without line breaks. *)
Definition column_char (c : ascii) : bool := plain_char c && not_rparen c.

Definition plain_columns (get_target_columns : str -> list str) : Prop :=
  forall t,
    Forall (fun col => forallb column_char col = true) (get_target_columns t).

(** The second pass is in the state of the first, or outside any block. *)
Definition follows (st st2 : block_state) : Prop :=
  st2 = st \/ in_copy_block st2 = false.

(** ** Sample lookups *)

Definition two_columns (t : str) : list str := [chars "a"; chars "b"].

Definition three_columns_of_t (t : str) : list str :=
  if str_eqb t (chars "public.t") then [chars "a"; chars "b"; chars "c"]
  else [].

Definition t_and_u (t : str) : list str :=
  if str_eqb t (chars "t") then [chars "a"; chars "b"]
  else if str_eqb t (chars "u") then [chars "x"]
  else [].

(** A lookup whose one column name closes the parenthesis of the header
    and goes on like the end of a header. *)
Definition closing_column (t : str) : list str := [chars "a) from stdin;"].

(** ** Sample lines *)

Definition sample_header : str :=
chars "COPY t (a, b, old) FROM stdin; -- dump" ++ [LF].

(** A row of the two-column table [t] whose first value reads like a
  header. *)
Definition header_like_row : str :=
chars "COPY u (x) FROM stdin;" ++ [TAB] ++ chars "v" ++ [LF].

Definition row_1 : str := chars "1" ++ [LF].
Definition row_12_ : str := chars "1" ++ [TAB] ++ chars "2" ++ [TAB] ++ [LF].
Definition row_123 : str :=
chars "1" ++ [TAB] ++ chars "2" ++ [TAB] ++ chars "3" ++ [LF].
Definition terminator_line : str := chars "\." ++ [LF].
Definition statement_line : str := chars "SET search_path = public;" ++ [LF].

Definition sample_dump : str :=
statement_line ++ sample_header ++ row_123 ++ row_12_ ++ row_1
  ++ terminator_line.

Definition scenario_input : str :=
chars "COPY public.t (a, b) FROM stdin;" ++ [LF]
  ++ chars "1" ++ [TAB] ++ chars "2" ++ [TAB] ++ [LF]
  ++ chars "1" ++ [TAB] ++ chars "2" ++ [TAB] ++ chars "3" ++ [TAB] ++ [LF]
  ++ chars "\." ++ [LF].

Definition scenario_output : str :=
chars "COPY public.t (a, b, c) FROM stdin;" ++ [LF]
  ++ chars "1" ++ [TAB] ++ chars "2" ++ [TAB] ++ [LF]
  ++ chars "1" ++ [TAB] ++ chars "2" ++ [TAB] ++ chars "3" ++ [LF]
  ++ chars "\." ++ [LF].

(** A lookup with a line break inside a column name of [u], and a dump in
    which the header of [u] comes while the block of [t] is open. *)
Definition broken_column (t : str) : list str :=
  if str_eqb t (chars "u") then [chars "a" ++ [LF] ++ chars "b"]
  else [chars "a"].

Definition two_headers : str :=
  chars "COPY t (x) FROM stdin;" ++ [LF]
    ++ chars "COPY" ++ [TAB] ++ chars "u" ++ [TAB]
    ++ chars "(x) FROM stdin;" ++ [LF].

(** ** The lookup in the target database *)

Module Resolver.

(** What [subprocess.check_output] gives once [docker] could be started:
    the output of a command that exits with status 0, or the exception
    [CalledProcessError] with the output of a command that does not.  The
    output arrives as text ([universal_newlines=True]).  No other
    exception is caught by the script, and none is modelled. *)
Inductive completed : Type :=
| Exit0 (output : str)
| CalledProcessError (output : str).

(** [c in s] for one character. *)
Definition has_char (c : ascii) (s : str) : bool := existsb (Ascii.eqb c) s.

(** [s.split(sep, 1)] as a pair, for an [s] in which [sep] occurs. *)
Fixpoint split_once (sep : ascii) (s : str) : str * str :=
  match s with
  | [] => ([], [])
  | c :: s' =>
      if Ascii.eqb c sep then ([], s')
      else let (a, b) := split_once sep s' in (c :: a, b)
  end.

(** The schema and the table of a possibly qualified name. *)
Definition schema_and_table (full_table : str) : str * str :=
  if has_char "." full_table then split_once "." full_table
  else (chars "public", full_table).

Definition query (schema table : str) : str :=
  chars "SELECT string_agg(quote_ident(column_name), ', ' ORDER BY ordinal_position) "
    ++ chars "FROM information_schema.columns "
    ++ chars "WHERE table_schema = '" ++ schema
    ++ chars "' AND table_name = '" ++ table ++ chars "';".

Definition cmd (container db_user db_name query : str) : list str :=
  [chars "docker"; chars "exec"; chars "-i"; container;
   chars "psql"; chars "-U"; db_user; chars "-d"; db_name;
   chars "-t"; chars "-c"; query].

(** The command that a lookup runs. *)
Definition cmd_of (full_table container db_user db_name : str) : list str :=
  let (schema, table) := schema_and_table full_table in
  cmd container db_user db_name (query schema table).

Section Lookup.

(** The run of a command with [subprocess.check_output]. *)
Variable check_output : list str -> completed.

(** The columns returned, and what is written to [sys.stderr]. *)
Definition get_target_columns (full_table container db_user db_name : str)
  : list str * list str :=
  let cmd := cmd_of full_table container db_user db_name in
  match check_output cmd with
  | Exit0 result =>
      let result := strip result in
      match result with
      | _ :: _ => (map strip (split "," result), [])
      | [] => ([], [])
      end
  | CalledProcessError output =>
      ([],
       [chars "Error running command: " ++ join (chars " ") cmd ++ [LF];
        output])
  end.

End Lookup.

End Resolver.

(** ** The script from its command line to its exit *)

Module Script.

(** [needle in hay] for strings. *)
Fixpoint starts_with (p s : str) : bool :=
  match p, s with
  | [], _ => true
  | a :: p', b :: s' => Ascii.eqb a b && starts_with p' s'
  | _ :: _, [] => false
  end.

Fixpoint contains (needle hay : str) : bool :=
  starts_with needle hay ||
  match hay with
  | [] => false
  | _ :: hay' => contains needle hay'
  end.

(** [docker inspect c] exits with status 0. *)
Definition inspect (check_output : list str -> Resolver.completed)
    (c : str) : bool :=
  match check_output [chars "docker"; chars "inspect"; c] with
  | Resolver.Exit0 _ => true
  | Resolver.CalledProcessError _ => false
  end.

Fixpoint auto_detect_container
    (check_output : list str -> Resolver.completed)
    (possible_containers : list str) : option str :=
  match possible_containers with
  | [] => None
  | c :: rest =>
      if inspect check_output c then Some c
      else auto_detect_container check_output rest
  end.

Definition possible_containers : list str :=
  [chars "wanderer-wanderer_db-1"; chars "wanderer_devcontainer-db-1"].

Definition db_name_of (container : str) : str :=
  if contains (chars "devcontainer") container then chars "wanderer_dev"
  else chars "postgres".

Definition db_user : str := chars "postgres".

(** What the script runs in: [sys.argv] as the program name and the
    arguments after it, the files that can be opened for reading with
    their content, the paths that can be opened for writing, and the
    commands.  A path names one file, and opening a file for writing
    empties it at once, also for a reader that has it open. *)
Record environment : Type := {
  prog : str;
  args : list str;
  files : str -> option str;
  can_write : str -> bool;
  check_output : list str -> Resolver.completed
}.

(** The lines that [print] writes, and the three fatal messages of [main]
    on [sys.stderr]. *)
Inductive printed : Type :=
| Usage (prog : str)
| UsingContainer (container : str)
| TargetDatabase (db_name : str)
| ProcessingBackup
| InLoop (m : message)
| Complete (output_file : str).

Inductive fatal : Type :=
| ErrorOpeningInput (input_file : str)
| ErrorOpeningOutput (output_file : str)
| NoContainer (checked : list str).

(** How a run ends: the exit status, the lines printed, the fatal message
    if there is one, and the files.  What the lookups write to
    [sys.stderr] is the second component of [get_target_columns]. *)
Record outcome : Type := {
  exit_code : nat;
  stdout : list printed;
  fatal_error : option fatal;
  files_after : str -> option str
}.

(** A file after [open(path, "w")] and after the writes and [close]. *)
Definition put (fs : str -> option str) (path content : str)
  : str -> option str :=
  fun p => if str_eqb p path then Some content else fs p.

Fixpoint messages (es : list effect) : list message :=
  match es with
  | [] => []
  | Write _ :: es' => messages es'
  | Print m :: es' => m :: messages es'
  end.

(** [sys.exit(1)] after a message on [sys.stderr]. *)
Definition die (e : fatal) (fs : str -> option str) : outcome :=
  {| exit_code := 1; stdout := []; fatal_error := Some e;
     files_after := fs |}.

(** The lookup of a run, as the loop calls it. *)
Definition lookup (env : environment) (container : str) (full_table : str)
  : list str :=
  fst (Resolver.get_target_columns (check_output env) full_table container
         db_user (db_name_of container)).

Definition main (env : environment) : outcome :=
  match args env with
  | [input_file; output_file] =>
      match files env input_file with
      | None => die (ErrorOpeningInput input_file) (files env)
      | Some _ =>
          if can_write env output_file then
            (* [open(output_file, "w")] leaves the file empty *)
            let fs := put (files env) output_file [] in
            match auto_detect_container (check_output env)
                    possible_containers with
            | None => die (NoContainer possible_containers) fs
            | Some container =>
                (* [for line in fin] reads the input file as it is now *)
                let content :=
                  match fs input_file with Some c => c | None => [] end in
                let (_, es) :=
                  process_lines (lookup env container) initial_state
                    (file_lines content) in
                {| exit_code := 0;
                   stdout :=
                     [UsingContainer container;
                      TargetDatabase (db_name_of container);
                      ProcessingBackup]
                       ++ map InLoop (messages es)
                       ++ [Complete output_file];
                   fatal_error := None;
                   files_after := put fs output_file (concat (written es)) |}
            end
          else die (ErrorOpeningOutput output_file) (files env)
      end
  | _ =>
      {| exit_code := 1; stdout := [Usage (prog env)]; fatal_error := None;
         files_after := files env |}
  end.

End Script.

(** ** Vocabulary of the lookup *)

(** A name without white space at either end, and not empty. *)
Definition trimmed (s : str) : Prop :=
  s <> [] /\ stops isspace s /\ stops isspace (rev s).

(** The output of a lookup that succeeds with the columns [a] and [b], as
    [psql -t] prints it. *)
Definition answers_a_b (cmd : list str) : Resolver.completed :=
  Resolver.Exit0 (chars " a, b" ++ [LF] ++ [LF]).

(** ** Sample environments *)

Definition sample_files (p : str) : option str :=
  if str_eqb p (chars "in.sql") then Some sample_dump else None.

Definition sample_env : Script.environment :=
  {| Script.prog := chars "prep_restore.py";
     Script.args := [chars "in.sql"; chars "out.sql"];
     Script.files := sample_files;
     Script.can_write := fun _ => true;
     Script.check_output := answers_a_b |}.

(** The dump given as input and as output. *)
Definition same_file_env : Script.environment :=
  {| Script.prog := chars "prep_restore.py";
     Script.args := [chars "in.sql"; chars "in.sql"];
     Script.files := sample_files;
     Script.can_write := fun _ => true;
     Script.check_output := answers_a_b |}.

(** No container answers. *)
Definition fails_always (cmd : list str) : Resolver.completed :=
  Resolver.CalledProcessError [].

Definition no_container_env : Script.environment :=
  {| Script.prog := chars "prep_restore.py";
     Script.args := [chars "in.sql"; chars "out.sql"];
     Script.files := sample_files;
     Script.can_write := fun _ => true;
     Script.check_output := fails_always |}.

(** The containers exist and every lookup fails. *)
Definition inspect_only (cmd : list str) : Resolver.completed :=
  match cmd with
  | [_; _; _] => Resolver.Exit0 []
  | _ => Resolver.CalledProcessError (chars "psql: error")
  end.

Definition database_down_env : Script.environment :=
  {| Script.prog := chars "prep_restore.py";
     Script.args := [chars "in.sql"; chars "out.sql"];
     Script.files := sample_files;
     Script.can_write := fun _ => true;
     Script.check_output := inspect_only |}.

(** * Properties *)

(** ** Lists of characters *)

Lemma app_eq_length (A : Type) (a a' x x' : list A) :
  a ++ x = a' ++ x' -> length a = length a' -> a = a' /\ x = x'.
Proof.
  revert a'; induction a as [|c a IH]; intros [|c' a'] H L;
    simpl in *; try discriminate; auto.
  injection H as -> H. destruct (IH a' H) as [-> ->]; auto.
Qed.

(** Two runs of the class [p] that start at the same place and both stop
    at a character outside [p] are the same run. *)
Lemma run_unique p (a a' x x' : str) :
  a ++ x = a' ++ x' ->
  forallb p a = true -> forallb p a' = true ->
  stops p x -> stops p x' ->
  a = a' /\ x = x'.
Proof.
  revert a'; induction a as [|c a IH]; intros [|c' a'] H Pa Pa' Sx Sx';
    simpl in *.
  - auto.
  - subst x. simpl in Sx. apply andb_true_iff in Pa'. destruct Pa' as [E _].
    congruence.
  - subst x'. simpl in Sx'. apply andb_true_iff in Pa. destruct Pa as [E _].
    congruence.
  - injection H as -> H.
    apply andb_true_iff in Pa, Pa'.
    destruct (IH a' H) as [-> ->]; tauto.
Qed.

Lemma firstn_length_diff (A : Type) (w rest : list A) :
  firstn (length (w ++ rest) - length rest) (w ++ rest) = w.
Proof.
  rewrite length_app, Nat.add_sub.
  rewrite firstn_app, Nat.sub_diag, firstn_all. simpl. apply app_nil_r.
Qed.

(** ** The matcher finds what the pattern accepts *)

Section MatcherFacts.
Variable ic : bool.
Variable A : Type.

Lemma greedy_sound p s (k : str -> option A) a :
  greedy p s k = Some a ->
  exists w rest, s = w ++ rest /\ forallb p w = true /\ k rest = Some a.
Proof.
  induction s as [|c s IH]; simpl; intros H.
  - exists [], []. auto.
  - destruct (p c) eqn:Pc.
    + destruct (greedy p s k) as [a'|] eqn:G.
      * injection H as <-. destruct (IH eq_refl) as (w & rest & -> & Pw & K).
        exists (c :: w), rest. simpl. rewrite Pc, Pw. auto.
      * exists [], (c :: s). auto.
    + exists [], (c :: s). auto.
Qed.

Lemma greedy_complete p s (k : str -> option A) :
  greedy p s k = None ->
  forall w rest, s = w ++ rest -> forallb p w = true -> k rest = None.
Proof.
  induction s as [|c s IH]; simpl; intros H w rest E Pw.
  - symmetry in E. apply app_eq_nil in E. destruct E as [-> ->]. exact H.
  - destruct w as [|c' w]; simpl in E.
    + subst rest. destruct (p c); [destruct (greedy p s k)|]; congruence.
    + injection E as <- ->. simpl in Pw. apply andb_true_iff in Pw.
      destruct Pw as [Pc Pw]. rewrite Pc in H.
      destruct (greedy p (w ++ rest) k) eqn:G; [discriminate|].
      eapply IH; eauto.
Qed.

Lemma rmatch_sound r : forall s gs (k : str -> list str -> option A) a,
  rmatch ic r s gs k = Some a ->
  exists w g rest,
    s = w ++ rest /\ lang ic r w g /\ k rest (gs ++ g) = Some a.
Proof.
  induction r as [c|p|p|r1 IH1 r2 IH2|r IH]; simpl; intros s gs k a H.
  - destruct s as [|c' s]; [discriminate|].
    destruct (char_match ic c c') eqn:E; [|discriminate].
    exists [c'], [], s. rewrite app_nil_r. repeat split; auto.
    now constructor.
  - destruct s as [|c s]; [discriminate|].
    destruct (p c) eqn:Pc; [|discriminate].
    apply greedy_sound in H. destruct H as (w & rest & -> & Pw & K).
    exists (c :: w), [], rest. rewrite app_nil_r. repeat split; auto.
    constructor; [discriminate|]. simpl. now rewrite Pc.
  - apply greedy_sound in H. destruct H as (w & rest & -> & Pw & K).
    exists w, [], rest. rewrite app_nil_r. repeat split; auto.
    now constructor.
  - apply IH1 in H. destruct H as (w1 & g1 & rest1 & -> & L1 & H).
    apply IH2 in H. destruct H as (w2 & g2 & rest2 & -> & L2 & H).
    exists (w1 ++ w2), (g1 ++ g2), rest2.
    rewrite <- !app_assoc in *. repeat split; auto. now constructor.
  - apply IH in H. destruct H as (w & g & rest & -> & L & H).
    rewrite firstn_length_diff in H.
    exists w, (g ++ [w]), rest. rewrite app_assoc.
    repeat split; auto. now constructor.
Qed.

Lemma rmatch_complete r : forall s gs (k : str -> list str -> option A),
  rmatch ic r s gs k = None ->
  forall w g rest, s = w ++ rest -> lang ic r w g ->
                   k rest (gs ++ g) = None.
Proof.
  induction r as [c|p|p|r1 IH1 r2 IH2|r IH]; simpl;
    intros s gs k H w g rest E L; inversion L; subst; clear L.
  - simpl in H. rewrite app_nil_r.
    match goal with M : char_match _ _ _ = true |- _ => rewrite M in H end.
    exact H.
  - rewrite app_nil_r.
    destruct w as [|c w]; [congruence|]. simpl in *.
    match goal with M : _ && _ = true |- _ =>
      apply andb_true_iff in M; destruct M as [Pc Pw] end.
    rewrite Pc in H.
    exact (greedy_complete p (fun rest => k rest gs) H w rest eq_refl ltac:(assumption)).
  - rewrite app_nil_r.
    exact (greedy_complete p (fun rest => k rest gs) H w rest eq_refl ltac:(assumption)).
  - rewrite app_assoc.
    eapply IH2; [|reflexivity|eassumption].
    rewrite <- app_assoc in H.
    exact (IH1 _ _ (fun s1 gs1 => rmatch ic r2 s1 gs1 k) H w1 g1
             (w2 ++ rest) eq_refl ltac:(assumption)).
  - specialize (IH _ _ _ H w g0 rest eq_refl).
    cbv beta in IH. rewrite firstn_length_diff in IH.
    rewrite app_assoc. auto.
Qed.
End MatcherFacts.

(** ** Characters of the pattern *)

Lemma lower_isspace c : isspace c = true -> lower c = c.
Proof.
  destruct c as [[] [] [] [] [] [] [] []]; vm_compute; congruence.
Qed.

Lemma lower_semicolon c : lower c = ";"%char -> c = ";"%char.
Proof.
  destruct c as [[] [] [] [] [] [] [] []]; vm_compute; congruence.
Qed.

Lemma same_letters_length l w : same_letters l w -> length w = length l.
Proof.
  intros H. apply (f_equal (@length _)) in H. now rewrite !length_map in H.
Qed.

Lemma same_letters_cons c l w :
  same_letters (c :: l) w ->
  exists c' w', w = c' :: w' /\ lower c' = lower c /\ same_letters l w'.
Proof.
  unfold same_letters. destruct w as [|c' w']; simpl; [discriminate|].
  intros H. injection H as H1 H2. eauto.
Qed.

(** A word that starts with a letter of the pattern does not start with a
    white-space character. *)
Lemma same_letters_stops c l w x :
  isspace (lower c) = false ->
  same_letters (c :: l) w -> stops isspace (w ++ x).
Proof.
  intros Hc H. apply same_letters_cons in H.
  destruct H as (c' & w' & -> & E & _). simpl.
  destruct (isspace c') eqn:S; [|reflexivity].
  pose proof (lower_isspace _ S). congruence.
Qed.

Lemma run1_stops p q (w x : str) :
  (forall c, p c = true -> q c = false) -> run1 p w -> stops q (w ++ x).
Proof.
  intros Hpq [Hne Hall]. destruct w as [|c w]; [congruence|]. simpl in *.
  apply andb_true_iff in Hall. now apply Hpq.
Qed.

Lemma isspace_notspace c : isspace c = true -> notspace c = false.
Proof. unfold notspace. now intros ->. Qed.

Lemma notspace_isspace c : notspace c = true -> isspace c = false.
Proof. unfold notspace. now destruct (isspace c). Qed.

(** ** The shape of a header *)

Lemma lang_lits c s : forall w g,
  lang true (lits c s) w g <-> g = [] /\ same_letters (c :: s) w.
Proof.
  revert c. induction s as [|c' s IH]; intros c w g; simpl.
  - split.
    + intros H. inversion H; subst. split; [reflexivity|].
      unfold same_letters. simpl. f_equal.
      unfold char_match in *. apply Ascii.eqb_eq in H1. congruence.
    + intros [-> H]. apply same_letters_cons in H.
      destruct H as (c1 & w' & -> & E & H).
      apply same_letters_length in H. destruct w'; [|discriminate].
      constructor. unfold char_match. apply Ascii.eqb_eq. congruence.
  - split.
    + intros H. inversion H; subst. apply IH in H5. destruct H5 as [-> H5].
      inversion H2; subst. split; [reflexivity|].
      unfold same_letters in *. simpl. f_equal; [|exact H5].
      unfold char_match in *. apply Ascii.eqb_eq in H1. congruence.
    + intros [-> H]. apply same_letters_cons in H.
      destruct H as (c1 & w' & -> & E & H).
      change (lang true (Cat (Lit c) (lits c' s)) ([c1] ++ w') ([] ++ [])).
      constructor.
      * constructor. unfold char_match. apply Ascii.eqb_eq. congruence.
      * apply IH. auto.
Qed.

Ltac invert_lang :=
  repeat match goal with
  | H : lang _ (lits _ _) _ _ |- _ =>
      apply lang_lits in H; destruct H as [-> H]
  | H : lang _ (Cat _ _) _ _ |- _ => inversion H; subst; clear H
  | H : lang _ (Group _) _ _ |- _ => inversion H; subst; clear H
  | H : lang _ (Plus _) _ _ |- _ => inversion H; subst; clear H
  | H : lang _ (Star _) _ _ |- _ => inversion H; subst; clear H
  | H : lang _ (Lit _) _ _ |- _ => inversion H; subst; clear H
  end.

Lemma char_match_exact c c' :
  lower c = c -> (forall x, lower x = c -> x = c) ->
  char_match true c c' = true -> c' = c.
Proof.
  unfold char_match. intros H1 H2 H. apply Ascii.eqb_eq in H.
  apply H2. congruence.
Qed.

Lemma lower_lparen c : lower c = "("%char -> c = "("%char.
Proof.
  destruct c as [[] [] [] [] [] [] [] []]; vm_compute; congruence.
Qed.

Lemma lower_rparen c : lower c = ")"%char -> c = ")"%char.
Proof.
  destruct c as [[] [] [] [] [] [] [] []]; vm_compute; congruence.
Qed.

Lemma header_lang_shape w gs :
  lang true copy_header_pattern w gs ->
  exists m, gs = groups m /\ header_shape w m.
Proof.
  unfold copy_header_pattern. intros H. invert_lang.
  repeat match goal with
  | H : char_match true "(" _ = true |- _ =>
      apply char_match_exact in H; [|reflexivity|exact lower_lparen]
  | H : char_match true ")" _ = true |- _ =>
      apply char_match_exact in H; [|reflexivity|exact lower_rparen]
  end.
  subst.
  match goal with
  | |- exists m, ?a :: ?b :: ?c :: ?d :: ?e :: nil = _ /\ _ =>
      exists {| m_prefix := a; m_full_table := b; m_spacer := c;
                m_orig_cols := d; m_suffix := e |}
  | |- exists m, ?l = _ /\ _ =>
      let l' := eval simpl in l in
      match l' with
      | ?a :: ?b :: ?c :: ?d :: ?e :: nil =>
          exists {| m_prefix := a; m_full_table := b; m_spacer := c;
                    m_orig_cols := d; m_suffix := e |}
      end
  end.
  split; [reflexivity|].
  repeat match goal with
  | H : char_match true _ _ = true |- _ =>
      unfold char_match in H; apply Ascii.eqb_eq in H
  end.
  constructor; simpl; unfold run1; eauto 10.
  - match goal with
    | |- exists kw ws, ?a :: ?b :: ?c :: ?d :: ?w = _ /\ _ =>
        exists [a; b; c; d], w
    end.
    unfold same_letters. simpl. repeat split; auto; congruence.
  - match goal with
    | |- exists ws1 kw1 ws2 kw2,
           ?u ++ ?a :: ?b :: ?c :: ?d :: ?v ++ ?k = _ /\ _ =>
        exists u, [a; b; c; d], v, k
    end.
    unfold same_letters. simpl. repeat split; auto; congruence.
Qed.

Lemma header_shape_lang w m :
  header_shape w m -> lang true copy_header_pattern w (groups m).
Proof.
  intros [Ht (kw & ws & Ep & Hkw & Hws1 & Hws2) [Ht1 Ht2] [Hs1 Hs2] Hc
            (ws1 & kw1 & ws2 & kw2 & Es & [Ha1 Ha2] & Hk1 & [Hb1 Hb2] & Hk2)].
  destruct m as [prefix table spacer cols suffix]. simpl in *. subst.
  pose proof
    (L_Cat
       (L_Group (L_Cat (proj2 (lang_lits "C" (chars "OPY") kw [])
                               (conj eq_refl Hkw))
                       (L_Plus true _ Hws1 Hws2)))
    (L_Cat (L_Group (L_Plus true _ Ht1 Ht2))
    (L_Cat (L_Group (L_Plus true _ Hs1 Hs2))
    (L_Cat (L_Lit true "(" "(" eq_refl)
    (L_Cat (L_Group (L_Star true _ _ Hc))
    (L_Cat (L_Lit true ")" ")" eq_refl)
           (L_Group
              (L_Cat (L_Plus true _ Ha1 Ha2)
              (L_Cat (proj2 (lang_lits "F" (chars "ROM") kw1 [])
                            (conj eq_refl Hk1))
              (L_Cat (L_Plus true _ Hb1 Hb2)
                     (proj2 (lang_lits "s" (chars "tdin;") kw2 [])
                            (conj eq_refl Hk2)))))))))))) as L.
  exact L.
Qed.

(** A header is read in one way only: the runs are maximal and the
    literals have a fixed length. *)
Lemma header_shape_unique w w' m m' (r r' : str) :
  header_shape w m -> header_shape w' m' -> w ++ r = w' ++ r' ->
  m = m' /\ r = r'.
Proof.
  intros [Ht (kw & ws & Ep & Hkw & [Hws1 Hws2]) [Ht1 Ht2] [Hs1 Hs2] Hc
            (ws1 & kw1 & ws2 & kw2 & Es & [Ha1 Ha2] & Hk1 & [Hb1 Hb2] & Hk2)]
         [Ht' (kw' & ws' & Ep' & Hkw' & [Hws1' Hws2']) [Ht1' Ht2'] [Hs1' Hs2']
            Hc' (ws1' & kw1' & ws2' & kw2' & Es' & [Ha1' Ha2'] & Hk1'
                 & [Hb1' Hb2'] & Hk2')] E.
  destruct m as [prefix table spacer cols suffix].
  destruct m' as [prefix' table' spacer' cols' suffix'].
  simpl in *. subst.
  repeat first [rewrite <- app_assoc in E | progress simpl in E].
  apply app_eq_length in E;
    [|rewrite (same_letters_length Hkw), (same_letters_length Hkw');
      reflexivity].
  destruct E as [-> E].
  apply (run_unique isspace) in E; auto;
    try (apply (run1_stops (p := notspace));
         [exact notspace_isspace | split; assumption]).
  destruct E as [-> E].
  apply (run_unique notspace) in E; auto;
    try (apply (run1_stops (p := isspace));
         [exact isspace_notspace | split; assumption]).
  destruct E as [-> E].
  apply (run_unique isspace) in E; auto; try reflexivity.
  destruct E as [-> E]. injection E as E.
  apply (run_unique not_rparen) in E; auto; try reflexivity.
  destruct E as [-> E]. injection E as E.
  apply (run_unique isspace) in E; auto;
    try (eapply same_letters_stops; [|eassumption]; reflexivity).
  destruct E as [-> E].
  apply app_eq_length in E;
    [|rewrite (same_letters_length Hk1), (same_letters_length Hk1');
      reflexivity].
  destruct E as [-> E].
  apply (run_unique isspace) in E; auto;
    try (eapply same_letters_stops; [|eassumption]; reflexivity).
  destruct E as [-> E].
  apply app_eq_length in E;
    [|rewrite (same_letters_length Hk2), (same_letters_length Hk2');
      reflexivity].
  destruct E as [-> E]. auto.
Qed.

(** [copy_header_pattern.match(line)] succeeds exactly on the lines that
    start with a header, and returns its groups. *)
Lemma copy_header_match_shape line m :
  copy_header_match line = Some m <->
  exists w rest, line = w ++ rest /\ header_shape w m.
Proof.
  unfold copy_header_match, re_match. split.
  - destruct (rmatch _ _ _ _ _) as [[gs rest]|] eqn:R; [|discriminate].
    apply rmatch_sound in R. destruct R as (w & g & rest' & -> & L & K).
    injection K as <- <-.
    apply header_lang_shape in L. destruct L as (m' & -> & S).
    simpl. intros H. injection H as <-. destruct m'. simpl. eauto.
  - intros (w & rest & -> & S).
    destruct (rmatch _ _ _ _ _) as [[gs rest']|] eqn:R.
    + apply rmatch_sound in R. destruct R as (w' & g & rest2 & E & L & K).
      injection K as <- <-.
      apply header_lang_shape in L. destruct L as (m' & -> & S').
      destruct (header_shape_unique _ _ S S' E) as [<- _].
      destruct m. reflexivity.
    + apply header_shape_lang in S.
      pose proof (@rmatch_complete true _ _ _ _ _ R w (groups m) rest
                    eq_refl S) as K.
      discriminate.
Qed.

(** What follows the header on the line plays no part in the match. *)
Lemma copy_header_match_rest w m rest :
  header_shape w m -> copy_header_match (w ++ rest) = Some m.
Proof. intros S. apply copy_header_match_shape. eauto. Qed.

(** ** Splitting, joining and stripping *)

Lemma str_eqb_eq a b : str_eqb a b = true <-> a = b.
Proof.
  unfold str_eqb. destruct (list_eq_dec ascii_dec a b); split; congruence.
Qed.

Lemma str_eqb_neq a b : str_eqb a b = false <-> a <> b.
Proof.
  unfold str_eqb. destruct (list_eq_dec ascii_dec a b); split; congruence.
Qed.

Lemma split_not_nil sep s : split sep s <> [].
Proof.
  destruct s as [|c s]; simpl; [discriminate|].
  destruct (Ascii.eqb c sep); [discriminate|].
  destruct (split sep s); discriminate.
Qed.

Lemma join_cons sep x y l :
  join sep (x :: y :: l) = x ++ sep ++ join sep (y :: l).
Proof. reflexivity. Qed.

Lemma join_split sep s : join [sep] (split sep s) = s.
Proof.
  induction s as [|c s IH]; simpl; [reflexivity|].
  destruct (Ascii.eqb c sep) eqn:E.
  - apply Ascii.eqb_eq in E. subst c.
    pose proof (split_not_nil sep s) as N.
    destruct (split sep s) as [|f fs]; [congruence|].
    simpl in *. now rewrite IH.
  - pose proof (split_not_nil sep s) as N.
    destruct (split sep s) as [|f fs]; [congruence|].
    destruct fs; simpl in *; now rewrite <- IH.
Qed.

(** No field of a split contains the separator. *)
Lemma split_has_no sep s : Forall (has_no sep) (split sep s).
Proof.
  induction s as [|c s IH]; simpl.
  - constructor; [intros []|constructor].
  - destruct (Ascii.eqb c sep) eqn:E.
    + constructor; [intros []|exact IH].
    + pose proof (split_not_nil sep s) as N.
      destruct (split sep s) as [|f fs]; [congruence|].
      inversion IH; subst. constructor; [|assumption].
      intros [->|H]; [|contradiction].
      now rewrite Ascii.eqb_refl in E.
Qed.

Lemma split_no_sep sep s : has_no sep s -> split sep s = [s].
Proof.
  induction s as [|c s IH]; simpl; intros H; [reflexivity|].
  destruct (Ascii.eqb c sep) eqn:E.
  - apply Ascii.eqb_eq in E. subst. exfalso. apply H. now left.
  - rewrite IH; [reflexivity|]. intros I. apply H. now right.
Qed.

Lemma split_app_sep sep a b :
  has_no sep a -> split sep (a ++ sep :: b) = a :: split sep b.
Proof.
  induction a as [|c a IH]; simpl; intros H.
  - now rewrite Ascii.eqb_refl.
  - destruct (Ascii.eqb c sep) eqn:E.
    + apply Ascii.eqb_eq in E. subst. exfalso. apply H. now left.
    + rewrite IH; [reflexivity|]. intros I. apply H. now right.
Qed.

Lemma split_join sep fs :
  fs <> [] -> Forall (has_no sep) fs -> split sep (join [sep] fs) = fs.
Proof.
  induction fs as [|f fs IH]; intros N F; [congruence|].
  inversion F; subst. destruct fs as [|g fs].
  - simpl. now apply split_no_sep.
  - rewrite join_cons. simpl app. rewrite split_app_sep by assumption.
    f_equal. apply IH; [discriminate|assumption].
Qed.

Lemma lstrip_spec p s :
  exists t, s = t ++ lstrip p s /\ forallb p t = true /\ stops p (lstrip p s).
Proof.
  induction s as [|c s (t & E & P & S)]; simpl.
  - exists []. auto.
  - destruct (p c) eqn:Pc.
    + exists (c :: t). simpl. rewrite Pc, P. repeat split; auto.
      now f_equal.
    + exists []. simpl. auto.
Qed.

Lemma forallb_rev (p : ascii -> bool) s :
  forallb p (rev s) = forallb p s.
Proof.
  induction s as [|c s IH]; simpl; [reflexivity|].
  rewrite forallb_app, IH. simpl. rewrite andb_true_r. apply andb_comm.
Qed.

(** What [rstrip] removes is a run of stripped characters at the end. *)
Lemma rstrip_spec p s :
  exists t, s = rstrip p s ++ t /\ forallb p t = true.
Proof.
  unfold rstrip. destruct (lstrip_spec p (rev s)) as (t & E & P & _).
  exists (rev t). split.
  - rewrite <- rev_app_distr, <- E. now rewrite rev_involutive.
  - now rewrite forallb_rev.
Qed.

Lemma rstrip_app_true p s c : p c = true -> rstrip p (s ++ [c]) = rstrip p s.
Proof. intros H. unfold rstrip. rewrite rev_app_distr. simpl. now rewrite H. Qed.

Lemma rstrip_app_false p s c : p c = false -> rstrip p (s ++ [c]) = s ++ [c].
Proof.
  intros H. unfold rstrip. rewrite rev_app_distr. simpl. rewrite H.
  change (rev (c :: rev s) = s ++ [c]). simpl. now rewrite rev_involutive.
Qed.

Lemma rstrip_none p s : forallb (fun c => negb (p c)) s = true -> rstrip p s = s.
Proof.
  intros H. destruct s as [|c s] using rev_ind; [reflexivity|].
  rewrite forallb_app in H. simpl in H.
  apply andb_true_iff in H. destruct H as [_ H]. rewrite andb_true_r in H.
  apply rstrip_app_false. now destruct (p c).
Qed.

(** ** The reconciliation of a row *)

Lemma removelast_firstn_length (A : Type) (l : list A) :
  removelast l = firstn (length l - 1) l.
Proof.
  destruct l as [|x l] using rev_ind; [reflexivity|].
  rewrite removelast_last, length_app. simpl.
  replace (length l + 1 - 1) with (length l) by lia.
  rewrite firstn_app, Nat.sub_diag, firstn_all. simpl. now rewrite app_nil_r.
Qed.

(** Both repair steps together keep the first [expected] fields. *)
Lemma fix_fields_firstn expected fields :
  fix_fields expected fields = firstn expected fields.
Proof.
  unfold fix_fields.
  destruct ((length fields =? expected + 1)
              && str_eqb (last fields []) []) eqn:C.
  - apply andb_true_iff in C. destruct C as [C _].
    apply Nat.eqb_eq in C.
    rewrite removelast_firstn_length.
    replace (length fields - 1) with expected by lia.
    rewrite length_firstn.
    destruct (expected <? Nat.min expected (length fields)) eqn:L.
    + apply Nat.ltb_lt in L. lia.
    + reflexivity.
  - destruct (expected <? length fields) eqn:L; [reflexivity|].
    apply Nat.ltb_ge in L. now rewrite firstn_all2.
Qed.

(** ** One line *)

Section LineFacts.
Variable get_target_columns : str -> list str.

(** A data row of a block with a known count is written as the tab-join
    of its first [n] fields, and leaves the state alone. *)
Lemma process_line_data_row st line n :
  data_row st line -> expected_col_count st = Some n ->
  process_line get_target_columns st line =
    (st, [Write (join [TAB] (firstn n (fields_of line)) ++ [LF])]).
Proof.
  intros (B & M & T) E. unfold process_line. rewrite M, B.
  apply str_eqb_neq in T. rewrite T, E.
  now rewrite fix_fields_firstn.
Qed.

Lemma process_line_unknown st line :
  data_row st line -> expected_col_count st = None ->
  process_line get_target_columns st line = (st, [Write line]).
Proof.
  intros (B & M & T) E. unfold process_line. rewrite M, B.
  apply str_eqb_neq in T. now rewrite T, E.
Qed.
End LineFacts.

Lemma lstrip_stops p s : stops p s -> lstrip p s = s.
Proof. destruct s as [|c s]; simpl; [reflexivity|]. now intros ->. Qed.

Lemma rstrip_idem p s : rstrip p (rstrip p s) = rstrip p s.
Proof.
  unfold rstrip. rewrite rev_involutive. f_equal.
  destruct (lstrip_spec p (rev s)) as (_ & _ & _ & S).
  now apply lstrip_stops.
Qed.

Lemma row_of_app_LF s : row_of (s ++ [LF]) = row_of s.
Proof. apply rstrip_app_true. reflexivity. Qed.

Lemma has_no_forallb c s :
  has_no c s -> forallb (fun x => negb (Ascii.eqb x c)) s = true.
Proof.
  intros H. apply forallb_forall. intros x I.
  destruct (Ascii.eqb x c) eqn:E; [|reflexivity].
  apply Ascii.eqb_eq in E. subst. contradiction.
Qed.

Lemma row_of_no_LF s : has_no LF s -> row_of s = s.
Proof. intros H. apply rstrip_none. now apply has_no_forallb. Qed.

(** A terminator line is never taken for a header: it starts with white
    space or with a backslash, a header with the letter C. *)
Lemma terminator_not_header line :
  is_terminator line -> copy_header_match line = None.
Proof.
  unfold is_terminator, strip. intros T.
  destruct (copy_header_match line) as [m|] eqn:M; [|reflexivity].
  exfalso. apply copy_header_match_shape in M.
  destruct M as (w & rest & -> & [Ht (kw & ws & Ep & Hkw & _) _ _ _ _]).
  apply same_letters_cons in Hkw. destruct Hkw as (c & kw' & -> & Ec & _).
  rewrite Ht, Ep in T. simpl in T.
  assert (S : isspace c = false).
  { destruct (isspace c) eqn:S; [|reflexivity].
    pose proof (lower_isspace _ S) as L. rewrite L in Ec. subst c.
    discriminate. }
  rewrite S in T.
  match type of T with rstrip _ ?s = _ =>
    destruct (rstrip_spec isspace s) as (t & E & _) end.
  rewrite T in E. simpl in E. injection E as E _. subst c. discriminate.
Qed.

Lemma process_line_terminator get_target_columns st line :
  in_copy_block st = true -> is_terminator line ->
  process_line get_target_columns st line =
    (initial_state, [Write line; Print (FinishedBlock (current_table st))]).
Proof.
  intros B T. unfold process_line.
  rewrite (terminator_not_header T), B.
  apply str_eqb_eq in T. now rewrite T.
Qed.

Lemma process_line_outside get_target_columns st line :
  in_copy_block st = false -> copy_header_match line = None ->
  process_line get_target_columns st line = (st, [Write line]).
Proof. intros B M. unfold process_line. now rewrite M, B. Qed.

(** A line that matches the pattern is handled as a header whatever the
    state: the match is tried before [in_copy_block] is looked at. *)
Lemma process_line_header_any_state get_target_columns st st2 line m :
  copy_header_match line = Some m ->
  process_line get_target_columns st line =
  process_line get_target_columns st2 line.
Proof. intros M. unfold process_line. now rewrite M. Qed.

(** ** The claims about one line *)

Section LineClaims.
Variable get_target_columns : str -> list str.

(** C3: in a block with known expected count N, a data row that splits
    on tabs into exactly N+1 fields, the last of them empty, is written
    as its first N fields joined by tabs: the trailing empty field is
    removed and nothing else changes. *)
Theorem C3_trailing_empty_field_removed st line n front :
  data_row st line -> expected_col_count st = Some n ->
  fields_of line = front ++ [[]] -> length front = n ->
  process_line get_target_columns st line =
    (st, [Write (join [TAB] front ++ [LF])]) /\
  front = firstn n (fields_of line).
Proof.
  intros D E F L.
  assert (X : firstn n (fields_of line) = front).
  { rewrite F, <- L, firstn_app, Nat.sub_diag, firstn_all. simpl.
    apply app_nil_r. }
  rewrite (process_line_data_row get_target_columns D E), X. auto.
Qed.

(** C4: in a block with known expected count N, a data row with more
    than N+1 fields, or with exactly N+1 fields and a non-empty last one,
    is written as exactly its first N fields joined by tabs, whatever the
    discarded fields hold. *)
Theorem C4_extra_fields_truncated st line n :
  data_row st line -> expected_col_count st = Some n ->
  n + 1 < field_count line \/
  (field_count line = n + 1 /\ last (fields_of line) [] <> []) ->
  process_line get_target_columns st line =
    (st, [Write (join [TAB] (firstn n (fields_of line)) ++ [LF])]) /\
  length (firstn n (fields_of line)) = n.
Proof.
  intros D E C. split.
  - exact (process_line_data_row get_target_columns D E).
  - rewrite length_firstn. unfold field_count in C. lia.
Qed.

(** C5: in a block with known expected count N, a data row with fewer
    than N fields is written as it is: the row that is written is the row
    that was read, with the same fields and no padding, and a line that
    ends in its one newline is written unchanged. *)
Theorem C5_short_row_unchanged st line n :
  data_row st line -> expected_col_count st = Some n ->
  field_count line < n ->
  exists out,
    process_line get_target_columns st line = (st, [Write out]) /\
    out = row_of line ++ [LF] /\
    fields_of out = fields_of line /\
    (forall body, line = body ++ [LF] -> has_no LF body -> out = line).
Proof.
  intros D E C. exists (row_of line ++ [LF]).
  rewrite (process_line_data_row get_target_columns D E).
  unfold field_count in C.
  rewrite firstn_all2 by lia. unfold fields_of at 1.
  rewrite join_split. repeat split.
  - unfold fields_of. rewrite row_of_app_LF. unfold row_of.
    now rewrite rstrip_idem.
  - intros body -> H. rewrite row_of_app_LF.
    now rewrite (row_of_no_LF H).
Qed.

(** C7: whenever a block is open, with the count known or unknown, a
    line whose stripped content is backslash-dot is written unchanged and
    the three state variables go back to their initial values: no block
    open, no current table, expected count 0. *)
Theorem C7_terminator_closes_block st line :
  in_copy_block st = true -> is_terminator line ->
  process_line get_target_columns st line =
    (initial_state,
     [Write line; Print (FinishedBlock (current_table st))]).
Proof. apply process_line_terminator. Qed.

(** C8: a line read while no block is open and that does not match the
    header pattern is written byte for byte, and the state is left as it
    was. *)
Theorem C8_outside_block_passthrough st line :
  in_copy_block st = false -> copy_header_match line = None ->
  process_line get_target_columns st line = (st, [Write line]).
Proof. apply process_line_outside. Qed.

(** C10: when a line matches the header pattern and the lookup returns a
    non-empty column list, the header written is the matched prefix, the
    table identifier, the spacer, the resolved names joined by
    comma-space between parentheses, the matched FROM-stdin suffix and a
    newline; the line is the matched groups followed by some rest, and
    that rest does not reach the output. *)
Theorem C10_rewritten_header st line m :
  copy_header_match line = Some m ->
  get_target_columns (m_full_table m) <> [] ->
  let cols := get_target_columns (m_full_table m) in
  process_line get_target_columns st line =
    ({| in_copy_block := true;
        expected_col_count := Some (length cols);
        current_table := Some (m_full_table m) |},
     [Write (m_prefix m ++ m_full_table m ++ m_spacer m ++ chars "("
               ++ join (chars ", ") cols ++ chars ")" ++ m_suffix m
               ++ [LF]);
      Print (Rewrote (m_full_table m) (length cols))]) /\
  exists w rest,
    line = w ++ rest /\ header_shape w m /\
    w = m_prefix m ++ m_full_table m ++ m_spacer m ++ chars "("
          ++ m_orig_cols m ++ chars ")" ++ m_suffix m.
Proof.
  intros M N cols. split.
  - unfold process_line. rewrite M. subst cols. cbv zeta.
    destruct (get_target_columns (m_full_table m)) as [|c cs];
      [now elim N|].
    repeat rewrite <- app_assoc. reflexivity.
  - apply copy_header_match_shape in M.
    destruct M as (w & rest & E & S). exists w, rest.
    split; [exact E|]. split; [exact S|]. exact (hs_text S).
Qed.
End LineClaims.

(** ** Runs *)

Lemma written_app es1 es2 : written (es1 ++ es2) = written es1 ++ written es2.
Proof.
  induction es1 as [|[s|m] es1 IH]; simpl; [reflexivity| |assumption].
  now f_equal.
Qed.

Lemma count_occ_rstrip_LF s :
  count_occ ascii_dec (rstrip is_LF s) TAB = count_occ ascii_dec s TAB.
Proof.
  destruct (rstrip_spec is_LF s) as (t & E & P).
  rewrite E at 2. rewrite count_occ_app.
  assert (Z : count_occ ascii_dec t TAB = 0).
  { apply count_occ_not_In. intros I.
    rewrite forallb_forall in P. apply P in I. discriminate. }
  lia.
Qed.

Lemma length_split sep s :
  length (split sep s) = S (count_occ ascii_dec s sep).
Proof.
  induction s as [|c s IH]; simpl; [reflexivity|].
  destruct (Ascii.eqb c sep) eqn:E.
  - apply Ascii.eqb_eq in E. subst.
    destruct (ascii_dec sep sep); [|congruence]. simpl. now rewrite IH.
  - destruct (ascii_dec c sep) as [->|N].
    + now rewrite Ascii.eqb_refl in E.
    + pose proof (split_not_nil sep s) as X.
      destruct (split sep s); [congruence|]. simpl in *. exact IH.
Qed.

Lemma field_count_tabs s : field_count s = S (count_occ ascii_dec s TAB).
Proof.
  unfold field_count, fields_of, row_of.
  now rewrite length_split, count_occ_rstrip_LF.
Qed.

Lemma Forall_firstn (A : Type) (P : A -> Prop) n (l : list A) :
  Forall P l -> Forall P (firstn n l).
Proof.
  intros H. revert n. induction H; intros [|n]; simpl; constructor; auto.
Qed.

(** The number of fields of a written row. *)
Lemma field_count_written n line :
  0 < n ->
  field_count (join [TAB] (firstn n (fields_of line)) ++ [LF]) =
  Nat.min n (field_count line).
Proof.
  intros Hn. rewrite field_count_tabs.
  rewrite count_occ_app. simpl.
  destruct (ascii_dec LF TAB) as [E|_]; [discriminate|].
  rewrite Nat.add_0_r, <- length_split.
  rewrite split_join.
  - now rewrite length_firstn.
  - pose proof (split_not_nil TAB (row_of line)) as N.
    unfold fields_of. destruct (split TAB (row_of line)); [congruence|].
    destruct n; [lia|]. discriminate.
  - apply Forall_firstn, split_has_no.
Qed.

Section RunFacts.
Variable get_target_columns : str -> list str.

Lemma process_lines_cons st line rest :
  process_lines get_target_columns st (line :: rest) =
    (fst (process_lines get_target_columns
            (fst (process_line get_target_columns st line)) rest),
     snd (process_line get_target_columns st line) ++
     snd (process_lines get_target_columns
            (fst (process_line get_target_columns st line)) rest)).
Proof.
  simpl. destruct (process_line get_target_columns st line) as [st1 es1].
  simpl. now destruct (process_lines get_target_columns st1 rest).
Qed.

Lemma consistent_initial : consistent get_target_columns initial_state.
Proof. intros H. discriminate. Qed.

Lemma process_line_consistent st line :
  consistent get_target_columns st ->
  consistent get_target_columns
    (fst (process_line get_target_columns st line)).
Proof.
  intros C. unfold process_line.
  destruct (copy_header_match line) as [m|].
  - destruct (get_target_columns (m_full_table m)) as [|c cs] eqn:G;
      simpl; intros _; exists (m_full_table m); rewrite G; auto.
  - destruct (in_copy_block st) eqn:B; [|simpl; congruence].
    destruct (str_eqb _ _); [simpl; intros H; discriminate|].
    destruct (expected_col_count st); exact C.
Qed.

Lemma process_lines_consistent lines : forall st,
  consistent get_target_columns st ->
  consistent get_target_columns
    (fst (process_lines get_target_columns st lines)).
Proof.
  induction lines as [|l ls IH]; intros st C; [exact C|].
  rewrite process_lines_cons. simpl.
  apply IH. now apply process_line_consistent.
Qed.

(** C1, as the code has it: when the lookup of the block's table gave N
    columns, a data row written while that block is open has the first N
    fields of the row that was read: at most N fields, exactly N when
    the row had N or more, and as many as the row had when it had
    fewer. *)
Theorem C1_rows_have_at_most_expected_fields before line t n :
  let st := fst (process_lines get_target_columns initial_state before) in
  current_table st = Some t ->
  get_target_columns t <> [] -> length (get_target_columns t) = n ->
  data_row st line ->
  exists out,
    process_line get_target_columns st line = (st, [Write out]) /\
    field_count out = Nat.min n (field_count line) /\
    field_count out <= n /\
    (n <= field_count line -> field_count out = n).
Proof.
  intros st T G L D.
  assert (C : consistent get_target_columns st)
    by apply process_lines_consistent, consistent_initial.
  destruct (C (proj1 D)) as (t' & T' & E).
  rewrite T in T'. injection T' as <-.
  destruct (get_target_columns t) as [|c cs] eqn:G'; [congruence|].
  rewrite L in E.
  exists (join [TAB] (firstn n (fields_of line)) ++ [LF]).
  split; [exact (process_line_data_row get_target_columns D E)|].
  assert (0 < n) by (simpl in L; lia).
  rewrite field_count_written by assumption. lia.
Qed.

(** C6: when the lookup for a header returns no column, the header and
    every data row that follows it are written byte for byte, and the
    lines after them are processed in turn, the block still open with
    its count unknown. *)
Theorem C6_unknown_columns_pass_through st header m rows rest :
  copy_header_match header = Some m ->
  get_target_columns (m_full_table m) = [] ->
  Forall (fun row => copy_header_match row = None /\ ~ is_terminator row)
         rows ->
  written (snd (process_lines get_target_columns st
                  (header :: rows ++ rest))) =
    header :: rows ++
    written (snd (process_lines get_target_columns
                    (unknown_block (m_full_table m)) rest)) /\
  fst (process_lines get_target_columns st (header :: rows ++ rest)) =
    fst (process_lines get_target_columns
           (unknown_block (m_full_table m)) rest).
Proof.
  intros M G F.
  rewrite process_lines_cons.
  assert (H : process_line get_target_columns st header =
              (unknown_block (m_full_table m),
               [Write header; Print (CouldNotGetColumns (m_full_table m))])).
  { unfold process_line. now rewrite M, G. }
  rewrite H. cbn [fst snd app written].
  set (st' := unknown_block (m_full_table m)).
  assert (R : forall rows,
    Forall (fun row => copy_header_match row = None /\ ~ is_terminator row)
           rows ->
    process_lines get_target_columns st' (rows ++ rest) =
      (fst (process_lines get_target_columns st' rest),
       map Write rows ++ snd (process_lines get_target_columns st' rest))).
  { clear. induction 1 as [|row rows [M T] _ IH].
    - simpl. now destruct (process_lines get_target_columns st' rest).
    - rewrite <- app_comm_cons, process_lines_cons.
      rewrite (@process_line_unknown get_target_columns st' row)
        by (unfold data_row; auto).
      simpl fst. simpl snd. now rewrite IH. }
  rewrite (R rows F). cbn [fst snd]. rewrite written_app.
  split; [|reflexivity]. do 2 f_equal.
  clear. induction rows; simpl; congruence.
Qed.
End RunFacts.

(** ** Text files *)

Lemma universal_newlines_not_CR s :
  forallb not_CR (universal_newlines s) = true.
Proof.
  remember (length s) as n eqn:L. revert s L.
  induction n as [n IH] using lt_wf_ind. intros s L.
  destruct s as [|c s]; [reflexivity|].
  cbn [universal_newlines].
  destruct (Ascii.eqb c CR) eqn:E.
  - destruct s as [|c' s]; [reflexivity|].
    destruct (Ascii.eqb c' LF); cbn [forallb];
      change (not_CR LF) with true; cbn [andb];
      apply (IH (length _)) with (2 := eq_refl); subst n; simpl; lia.
  - cbn [forallb]. unfold not_CR at 1. rewrite E. cbn [negb andb].
    apply (IH (length s)) with (2 := eq_refl). subst n. simpl. lia.
Qed.

Lemma universal_newlines_id s :
  forallb not_CR s = true -> universal_newlines s = s.
Proof.
  induction s as [|c s IH]; simpl; [reflexivity|].
  unfold not_CR at 1. intros H. apply andb_true_iff in H. destruct H as [H1 H2].
  destruct (Ascii.eqb c CR); [discriminate|]. now rewrite IH.
Qed.

Lemma clean_app a b : clean (a ++ b) <-> clean a /\ clean b.
Proof. unfold clean. rewrite forallb_app. apply andb_true_iff. Qed.

Lemma clean_cons c s : clean (c :: s) <-> plain_char c = true /\ clean s.
Proof. unfold clean. simpl. apply andb_true_iff. Qed.

Lemma clean_has_no_LF s : clean s -> has_no LF s.
Proof.
  unfold clean. rewrite forallb_forall. intros H I. apply H in I.
  discriminate.
Qed.

Lemma clean_not_CR s : clean s -> forallb not_CR s = true.
Proof.
  unfold clean. rewrite !forallb_forall. intros H c I. apply H in I.
  unfold plain_char in I. apply andb_true_iff in I. apply I.
Qed.

Lemma line_ok_cons c l : plain_char c = true -> line_ok l -> line_ok (c :: l).
Proof.
  intros P (body & -> & C). exists (c :: body). split; [reflexivity|].
  now apply clean_cons.
Qed.

Lemma readlines_wf s : forallb not_CR s = true -> wf_lines (readlines s).
Proof.
  induction s as [|c s IH]; simpl; [constructor|].
  intros H. apply andb_true_iff in H. destruct H as [Hc Hs].
  specialize (IH Hs).
  destruct (Ascii.eqb c LF) eqn:E.
  - apply Ascii.eqb_eq in E. subst c.
    apply wf_cons; [|exact IH]. exists []. split; reflexivity.
  - assert (P : plain_char c = true).
    { unfold plain_char. rewrite E. exact Hc. }
    inversion IH as [|l [N C] X|l ls O W X]; subst.
    + apply wf_last. split; [discriminate|]. now apply clean_cons.
    + apply wf_last. split; [discriminate|]. now apply clean_cons.
    + apply wf_cons; [|exact W]. now apply line_ok_cons.
Qed.

Lemma file_lines_wf content : wf_lines (file_lines content).
Proof. apply readlines_wf, universal_newlines_not_CR. Qed.

Lemma readlines_line body rest :
  has_no LF body ->
  readlines (body ++ LF :: rest) = (body ++ [LF]) :: readlines rest.
Proof.
  induction body as [|c body IH]; intros H; simpl; [reflexivity|].
  destruct (Ascii.eqb c LF) eqn:E.
  - apply Ascii.eqb_eq in E. subst. exfalso. apply H. now left.
  - rewrite IH; [reflexivity|]. intros I. apply H. now right.
Qed.

Lemma readlines_last l : has_no LF l -> l <> [] -> readlines l = [l].
Proof.
  induction l as [|c l IH]; intros H N; [congruence|]. simpl.
  destruct (Ascii.eqb c LF) eqn:E.
  - apply Ascii.eqb_eq in E. subst. exfalso. apply H. now left.
  - destruct l as [|c' l]; [reflexivity|].
    rewrite IH; [reflexivity| |discriminate]. intros I. apply H. now right.
Qed.

(** Reading back the lines that were written gives these lines. *)
Lemma readlines_concat ls : wf_lines ls -> readlines (concat ls) = ls.
Proof.
  induction 1 as [|l [N C]|l ls (body & -> & C) W IH]; simpl.
  - reflexivity.
  - rewrite app_nil_r. apply readlines_last; [|exact N].
    now apply clean_has_no_LF.
  - rewrite <- app_assoc. simpl.
    rewrite readlines_line by now apply clean_has_no_LF. now rewrite IH.
Qed.

Lemma concat_not_CR ls : wf_lines ls -> forallb not_CR (concat ls) = true.
Proof.
  induction 1 as [|l [N C]|l ls (body & -> & C) W IH]; simpl.
  - reflexivity.
  - rewrite app_nil_r. now apply clean_not_CR.
  - rewrite !forallb_app, IH, (clean_not_CR C). reflexivity.
Qed.

Lemma file_lines_concat ls : wf_lines ls -> file_lines (concat ls) = ls.
Proof.
  intros W. unfold file_lines.
  rewrite universal_newlines_id by now apply concat_not_CR.
  now apply readlines_concat.
Qed.

(** ** The loop body as a step relation *)

Section StepFacts.
Variable get_target_columns : str -> list str.

Lemma is_terminator_dec line : {is_terminator line} + {~ is_terminator line}.
Proof. apply (list_eq_dec ascii_dec). Qed.

(** Every line takes one of the six ways. *)
Lemma process_line_step st line :
  exists st' out,
    step get_target_columns st line st' out /\
    fst (process_line get_target_columns st line) = st' /\
    written (snd (process_line get_target_columns st line)) = [out].
Proof.
  destruct (copy_header_match line) as [m|] eqn:M.
  - destruct (get_target_columns (m_full_table m)) as [|c cs] eqn:G.
    + exists (unknown_block (m_full_table m)), line.
      split; [now apply step_keep_header|].
      unfold process_line. now rewrite M, G.
    + exists (known_block (m_full_table m) (length (c :: cs))),
             (rewritten_header m (c :: cs) ++ [LF]).
      split; [now apply step_rewrite|].
      unfold process_line. rewrite M, G. split; [reflexivity|].
      unfold rewritten_header. cbn [written snd].
      now repeat rewrite <- app_assoc.
  - destruct (in_copy_block st) eqn:B.
    + destruct (is_terminator_dec line) as [T|T].
      * exists initial_state, line. split; [now apply step_terminator|].
        now rewrite (@process_line_terminator get_target_columns _ _ B T).
      * assert (D : data_row st line) by (unfold data_row; auto).
        destruct (expected_col_count st) as [n|] eqn:E.
        -- exists st, (join [TAB] (firstn n (fields_of line)) ++ [LF]).
           split; [now apply step_row|].
           now rewrite (process_line_data_row get_target_columns D E).
        -- exists st, line. split; [now apply step_row_unknown|].
           now rewrite (process_line_unknown get_target_columns D E).
    + exists st, line. split; [now apply step_outside|].
      now rewrite (@process_line_outside get_target_columns _ _ B M).
Qed.

(** A step is what [process_line] computes. *)
Lemma step_process_line st line st' out :
  step get_target_columns st line st' out ->
  fst (process_line get_target_columns st line) = st' /\
  written (snd (process_line get_target_columns st line)) = [out].
Proof.
  intros S. destruct S as [m c cs M G|m M G|B T|n D E|D E|B M].
  - unfold process_line. rewrite M, G. split; [reflexivity|].
    unfold rewritten_header. cbn [written snd].
    now repeat rewrite <- app_assoc.
  - unfold process_line. now rewrite M, G.
  - now rewrite (@process_line_terminator get_target_columns _ _ B T).
  - now rewrite (process_line_data_row get_target_columns D E).
  - now rewrite (process_line_unknown get_target_columns D E).
  - now rewrite (@process_line_outside get_target_columns _ _ B M).
Qed.

Lemma output_lines_cons st line rest :
  output_lines get_target_columns st (line :: rest) =
    written (snd (process_line get_target_columns st line)) ++
    output_lines get_target_columns
      (fst (process_line get_target_columns st line)) rest.
Proof.
  unfold output_lines. rewrite process_lines_cons. cbn [snd].
  apply written_app.
Qed.
End StepFacts.

(** ** Headers and rows on the lines of a file *)

Lemma forallb_join (p : ascii -> bool) sep l :
  forallb p sep = true -> Forall (fun x => forallb p x = true) l ->
  forallb p (join sep l) = true.
Proof.
  intros Hs. induction 1 as [|x l Hx Hl IH]; [reflexivity|].
  destruct l as [|y l]; [exact Hx|].
  rewrite join_cons, !forallb_app, Hx, Hs. exact IH.
Qed.

Lemma same_letters_last l c w :
  same_letters (l ++ [c]) w -> (forall x, lower x = lower c -> x = c) ->
  exists k, w = k ++ [c].
Proof.
  unfold same_letters. intros E H.
  destruct w as [|x k _] using rev_ind.
  - rewrite map_app in E. simpl in E.
    now apply app_cons_not_nil in E.
  - rewrite !map_app in E. simpl in E. apply app_inj_tail in E.
    destruct E as [_ E]. apply H in E. subst. eauto.
Qed.

(** The text of a header ends with the semicolon of the pattern. *)
Lemma header_shape_ends w m :
  header_shape w m -> exists w', w = w' ++ [";"%char].
Proof.
  intros [Ht _ _ _ _ (ws1 & kw1 & ws2 & kw2 & Es & _ & _ & _ & Hk)].
  apply (same_letters_last (chars "stdin")) in Hk; [|exact lower_semicolon].
  destruct Hk as (k & ->).
  exists (m_prefix m ++ m_full_table m ++ m_spacer m ++ chars "("
            ++ m_orig_cols m ++ chars ")" ++ ws1 ++ kw1 ++ ws2 ++ k).
  rewrite Ht, Es. repeat rewrite <- app_assoc. reflexivity.
Qed.

Lemma app_LF_split (w rest p : str) :
  w ++ rest = p ++ [LF] ->
  (exists w' c, w = w' ++ [c] /\ c <> LF) ->
  exists rest', rest = rest' ++ [LF] /\ p = w ++ rest'.
Proof.
  intros E (w' & c & -> & N).
  destruct rest as [|x r _] using rev_ind.
  - rewrite app_nil_r in E. apply app_inj_tail in E. destruct E; congruence.
  - rewrite app_assoc in E. apply app_inj_tail in E. destruct E as [<- ->].
    eauto.
Qed.

Lemma header_shape_ends_not_LF w m :
  header_shape w m -> exists w' c, w = w' ++ [c] /\ c <> LF.
Proof.
  intros S. destruct (header_shape_ends S) as (w' & ->).
  exists w', ";"%char. split; [reflexivity|discriminate].
Qed.

(** On a line of a file, the header lies before the newline. *)
Lemma header_shape_clean line w rest m :
  file_line line -> line = w ++ rest -> header_shape w m -> clean w.
Proof.
  intros [(body & -> & C)|[_ C]] E S.
  - symmetry in E.
    destruct (app_LF_split _ _ E (header_shape_ends_not_LF S))
      as (rest' & _ & ->).
    now apply clean_app in C.
  - rewrite E in C. now apply clean_app in C.
Qed.

Lemma rewritten_shape w m cols :
  header_shape w m ->
  forallb not_rparen (join (chars ", ") cols) = true ->
  header_shape (rewritten_header m cols) (with_cols m cols).
Proof.
  intros [Ht Hp Hf Hs Hc Hx] C. constructor; simpl; auto.
Qed.

Lemma column_char_not_rparen cols :
  Forall (fun col => forallb column_char col = true) cols ->
  forallb not_rparen (join (chars ", ") cols) = true.
Proof.
  intros F. apply forallb_join; [reflexivity|].
  eapply Forall_impl; [|exact F]. intros col H. cbv beta in *.
  rewrite forallb_forall in *. intros c I. apply H in I.
  unfold column_char in I. apply andb_true_iff in I. apply I.
Qed.

Lemma column_char_clean cols :
  Forall (fun col => forallb column_char col = true) cols ->
  clean (join (chars ", ") cols).
Proof.
  intros F. apply forallb_join; [reflexivity|].
  eapply Forall_impl; [|exact F]. intros col H. cbv beta in *.
  rewrite forallb_forall in *. intros c I. apply H in I.
  unfold column_char in I. apply andb_true_iff in I. apply I.
Qed.

Lemma rewritten_header_clean w m cols :
  header_shape w m -> clean w -> clean (join (chars ", ") cols) ->
  clean (rewritten_header m cols).
Proof.
  intros S C J. rewrite (hs_text S) in C. unfold rewritten_header.
  repeat (apply clean_app in C; destruct C as [? C]).
  repeat (apply clean_app; split; auto).
Qed.

Lemma join_firstn_prefix sep fs : forall n,
  exists q, join sep fs = join sep (firstn n fs) ++ q.
Proof.
  induction fs as [|x l IH]; intros n.
  - exists []. now rewrite firstn_nil.
  - destruct n as [|n]; [now exists (join sep (x :: l))|].
    destruct l as [|y l]; [exists []; simpl; now rewrite firstn_nil, app_nil_r|].
    destruct (IH n) as (q & E). rewrite join_cons, E.
    destruct n as [|n].
    + exists (sep ++ join sep (firstn 0 (y :: l)) ++ q). reflexivity.
    + cbn [firstn]. rewrite join_cons. exists q.
      now repeat rewrite <- app_assoc.
Qed.

(** The row of a line of a file is the line without its newline. *)
Lemma file_line_row line :
  file_line line ->
  clean (row_of line) /\ exists tail, line = row_of line ++ tail.
Proof.
  intros [(body & -> & C)|[_ C]].
  - rewrite row_of_app_LF, (row_of_no_LF (clean_has_no_LF C)). eauto.
  - rewrite (row_of_no_LF (clean_has_no_LF C)). split; [exact C|].
    exists []. now rewrite app_nil_r.
Qed.

(** The row that is written begins the row that was read. *)
Lemma written_row_prefix line n :
  exists q, row_of line = join [TAB] (firstn n (fields_of line)) ++ q.
Proof.
  destruct (join_firstn_prefix [TAB] (fields_of line) n) as (q & E).
  exists q. rewrite <- E. unfold fields_of. now rewrite join_split.
Qed.

(** Reconciling a reconciled row changes nothing. *)
Lemma rejoin n s :
  join [TAB] (firstn n (split TAB (join [TAB] (firstn n (split TAB s))))) =
  join [TAB] (firstn n (split TAB s)).
Proof.
  pose proof (split_not_nil TAB s) as N.
  pose proof (split_has_no TAB s) as F.
  destruct (split TAB s) as [|f fs]; [congruence|].
  destruct n as [|n]; [reflexivity|].
  rewrite split_join.
  - now rewrite firstn_firstn, Nat.min_id.
  - discriminate.
  - now apply Forall_firstn.
Qed.

(** ** A second pass over the output *)

Section SecondPass.
Variable get_target_columns : str -> list str.
Hypothesis plain : plain_columns get_target_columns.

(** What is written for a line of a file is a line of a file. *)
Lemma step_line_ok st line st' out :
  file_line line -> step get_target_columns st line st' out ->
  line_ok out \/ out = line.
Proof.
  intros FL S. destruct S as [m c cs M G|m M G|B T|n D E|D E|B M]; auto.
  - left. exists (rewritten_header m (c :: cs)). split; [reflexivity|].
    apply copy_header_match_shape in M. destruct M as (w & rest & E & S).
    eapply rewritten_header_clean; [exact S| |].
    + eapply header_shape_clean; eassumption.
    + apply column_char_clean. rewrite <- G. apply plain.
  - left. exists (join [TAB] (firstn n (fields_of line))).
    split; [reflexivity|].
    destruct (file_line_row FL) as [C _].
    destruct (written_row_prefix line n) as (q & R).
    rewrite R in C. now apply clean_app in C.
Qed.

(** A row that is written is not taken for a header on the way back
    in. *)
Lemma written_row_not_header line n :
  file_line line -> copy_header_match line = None ->
  copy_header_match (join [TAB] (firstn n (fields_of line)) ++ [LF]) = None.
Proof.
  intros FL M.
  destruct (copy_header_match (_ ++ [LF])) as [m|] eqn:M2; [|reflexivity].
  exfalso. apply copy_header_match_shape in M2.
  destruct M2 as (w & rest & E & S). symmetry in E.
  destruct (app_LF_split _ _ E (header_shape_ends_not_LF S))
    as (rest' & _ & P).
  destruct (written_row_prefix line n) as (q & R).
  destruct (file_line_row FL) as [_ (tail & L)].
  rewrite R, P in L. rewrite L in M.
  repeat rewrite <- app_assoc in M.
  rewrite (copy_header_match_rest _ S) in M. discriminate.
Qed.

Lemma written_row_fields line n :
  file_line line ->
  join [TAB]
    (firstn n (fields_of (join [TAB] (firstn n (fields_of line)) ++ [LF])))
  = join [TAB] (firstn n (fields_of line)).
Proof.
  intros FL. unfold fields_of at 1. rewrite row_of_app_LF.
  destruct (file_line_row FL) as [C _].
  destruct (written_row_prefix line n) as (q & E).
  rewrite E in C. apply clean_app in C. destruct C as [C _].
  rewrite (row_of_no_LF (clean_has_no_LF C)).
  unfold fields_of. apply rejoin.
Qed.

(** The second pass writes back each line that the first pass wrote,
    and stays in the state of the first pass or outside any block. *)
Lemma step_again st st2 line st' out :
  file_line line -> follows st st2 ->
  step get_target_columns st line st' out ->
  exists st2', step get_target_columns st2 out st2' out /\ follows st' st2'.
Proof.
  intros FL F S. destruct S as [m c cs M G|m M G|B T|n D E|D E|B M].
  - (* a rewritten header is rewritten to itself *)
    apply copy_header_match_shape in M. destruct M as (w & rest & L & S).
    assert (S2 : header_shape (rewritten_header m (c :: cs))
                              (with_cols m (c :: cs))).
    { eapply rewritten_shape; [exact S|].
      apply column_char_not_rparen. rewrite <- G. apply plain. }
    exists (known_block (m_full_table m) (length (c :: cs))).
    split; [|now left].
    exact (@step_rewrite get_target_columns st2
             (rewritten_header m (c :: cs) ++ [LF])
             (with_cols m (c :: cs)) c cs
             (copy_header_match_rest _ S2) G).
  - exists (unknown_block (m_full_table m)).
    split; [now apply step_keep_header|now left].
  - destruct F as [->|B2].
    + exists initial_state. split; [now apply step_terminator|now left].
    + exists st2. split; [|now right].
      apply step_outside; [exact B2|now apply terminator_not_header].
  - destruct D as (B & M & T).
    pose proof (written_row_not_header n FL M) as M2.
    destruct F as [->|B2].
    + destruct (is_terminator_dec
                  (join [TAB] (firstn n (fields_of line)) ++ [LF]))
        as [T2|T2].
      * exists initial_state. split; [now apply step_terminator|now right].
      * exists st. split; [|now left].
        assert (D2 : data_row st
                       (join [TAB] (firstn n (fields_of line)) ++ [LF]))
          by (unfold data_row; auto).
        pose proof (step_row get_target_columns D2 E) as X.
        now rewrite (written_row_fields n FL) in X.
    + exists st2. split; [now apply step_outside|now right].
  - destruct F as [->|B2].
    + exists st. split; [now apply step_row_unknown|now left].
    + exists st2. split; [|now right].
      apply step_outside; [exact B2|apply D].
  - exists st2. assert (B2 : in_copy_block st2 = false)
      by (destruct F as [->|B2]; assumption).
    split; [now apply step_outside|]. destruct F as [->|?]; [now left|now right].
Qed.

Lemma wf_lines_file_line lines :
  wf_lines lines -> Forall file_line lines.
Proof.
  induction 1; constructor; auto; [now right|now left].
Qed.

Lemma output_lines_step st line rest st' out :
  step get_target_columns st line st' out ->
  output_lines get_target_columns st (line :: rest) =
    out :: output_lines get_target_columns st' rest.
Proof.
  intros S. apply step_process_line in S. destruct S as [<- W].
  now rewrite output_lines_cons, W.
Qed.

Lemma output_lines_wf lines : wf_lines lines -> forall st,
  wf_lines (output_lines get_target_columns st lines).
Proof.
  induction 1 as [|l L|l ls L W IH]; intros st.
  - constructor.
  - destruct (process_line_step get_target_columns st l)
      as (st' & out & S & _).
    rewrite (output_lines_step _ S).
    destruct (step_line_ok (or_intror L) S) as [O| ->].
    + apply wf_cons; [exact O|constructor].
    + now apply wf_last.
  - destruct (process_line_step get_target_columns st l)
      as (st' & out & S & _).
    rewrite (output_lines_step _ S).
    apply wf_cons; [|apply IH].
    destruct (step_line_ok (or_introl L) S) as [O| ->]; assumption.
Qed.

Lemma output_lines_again lines : Forall file_line lines ->
  forall st st2, follows st st2 ->
  output_lines get_target_columns st2
    (output_lines get_target_columns st lines) =
  output_lines get_target_columns st lines.
Proof.
  induction 1 as [|l ls FL _ IH]; intros st st2 F; [reflexivity|].
  destruct (process_line_step get_target_columns st l)
    as (st' & out & S & _).
  rewrite (output_lines_step _ S).
  destruct (step_again FL F S) as (st2' & S2 & F2).
  rewrite (output_lines_step _ S2). f_equal. now apply IH.
Qed.

(** C9, as the code has it: for a lookup whose column names hold no
    closing parenthesis and no line break, rewriting the output of the
    rewriter once more, with the same lookup, gives that output back. *)
Theorem C9_second_pass_changes_nothing content :
  main get_target_columns (main get_target_columns content) =
  main get_target_columns content.
Proof.
  change (concat (output_lines get_target_columns initial_state
            (file_lines (concat (output_lines get_target_columns
                                   initial_state (file_lines content))))) =
          concat (output_lines get_target_columns initial_state
                    (file_lines content))).
  pose proof (output_lines_wf (file_lines_wf content) initial_state) as W.
  rewrite (file_lines_concat W). f_equal.
  apply output_lines_again.
  - apply wf_lines_file_line, file_lines_wf.
  - now left.
Qed.
End SecondPass.

(** ** The claims on sample lines *)

(** A header with three looked-up columns, a row of three fields and a row
    with a fourth, empty field. *)
Example scenario_three_columns :
  main three_columns_of_t scenario_input = scenario_output.
Proof. reflexivity. Qed.

(** The pattern is matched whatever the case of its letters, and only at
    the start of the line. *)
Example header_in_lower_case :
  copy_header_match (chars "copy t (a) from STDIN;") =
    Some {| m_prefix := chars "copy "; m_full_table := chars "t";
            m_spacer := chars " "; m_orig_cols := chars "a";
            m_suffix := chars " from STDIN;" |}.
Proof. reflexivity. Qed.

Example header_after_a_space :
  copy_header_match (chars " COPY t (a) FROM stdin;") = None.
Proof. reflexivity. Qed.

Example header_without_spacer :
  copy_header_match (chars "COPY t(a) FROM stdin;") = None.
Proof. reflexivity. Qed.

Lemma C1_rows_have_at_most_expected_fields_witness :
  exists out,
    process_line two_columns (known_block (chars "t") 2) row_123 =
      (known_block (chars "t") 2, [Write out]) /\
    field_count out = Nat.min 2 (field_count row_123) /\
    field_count out <= 2 /\
    (2 <= field_count row_123 -> field_count out = 2).
Proof.
  apply (@C1_rows_have_at_most_expected_fields two_columns [sample_header]
           row_123 (chars "t") 2).
  - reflexivity.
  - discriminate.
  - reflexivity.
  - repeat split; try reflexivity. vm_compute. discriminate.
Defined.

(** C1 as stated fails: with two columns looked up, the one-field row
    [row_1] is written with one field, not two. *)
Lemma C1_counterexample :
  ~ (forall (get_target_columns : str -> list str) before line t n out,
       let st := fst (process_lines get_target_columns initial_state before) in
       current_table st = Some t ->
       get_target_columns t <> [] -> length (get_target_columns t) = n ->
       data_row st line ->
       process_line get_target_columns st line = (st, [Write out]) ->
       field_count out = n).
Proof.
  intros H.
  specialize (H two_columns [sample_header] row_1 (chars "t") 2 row_1).
  assert (X : field_count row_1 = 2).
  { apply H.
    - reflexivity.
    - discriminate.
    - reflexivity.
    - repeat split; try reflexivity. vm_compute. discriminate.
    - reflexivity. }
  vm_compute in X. discriminate.
Qed.

(** C2 on the code: a row of the open block of [t] that reads like a
    header is not handled as a data row; the lookup is called for [u], a
    header for [u] is written in place of the row, and the open block
    becomes a block of [u]. *)
Theorem C2_header_like_row_reopens_block :
  fst (process_lines t_and_u initial_state [sample_header]) =
    known_block (chars "t") 2 /\
  field_count header_like_row = 2 /\
  process_line t_and_u (known_block (chars "t") 2) header_like_row =
    (known_block (chars "u") 1,
     [Write (chars "COPY u (x) FROM stdin;" ++ [LF]);
      Print (Rewrote (chars "u") 1)]).
Proof. repeat split; vm_compute; reflexivity. Qed.

Lemma C3_trailing_empty_field_removed_witness :
  process_line two_columns (known_block (chars "t") 2) row_12_ =
    (known_block (chars "t") 2,
     [Write (join [TAB] [chars "1"; chars "2"] ++ [LF])]) /\
  [chars "1"; chars "2"] = firstn 2 (fields_of row_12_).
Proof.
  apply (@C3_trailing_empty_field_removed two_columns
           (known_block (chars "t") 2) row_12_ 2 [chars "1"; chars "2"]).
  - repeat split; try reflexivity. vm_compute. discriminate.
  - reflexivity.
  - reflexivity.
  - reflexivity.
Defined.

Lemma C4_extra_fields_truncated_witness :
  process_line two_columns (known_block (chars "t") 2) row_123 =
    (known_block (chars "t") 2,
     [Write (join [TAB] (firstn 2 (fields_of row_123)) ++ [LF])]) /\
  length (firstn 2 (fields_of row_123)) = 2.
Proof.
  apply (@C4_extra_fields_truncated two_columns
           (known_block (chars "t") 2) row_123 2).
  - repeat split; try reflexivity. vm_compute. discriminate.
  - reflexivity.
  - right. split; [reflexivity|]. vm_compute. discriminate.
Defined.

Lemma C5_short_row_unchanged_witness :
  exists out,
    process_line two_columns (known_block (chars "t") 2) row_1 =
      (known_block (chars "t") 2, [Write out]) /\
    out = row_of row_1 ++ [LF] /\
    fields_of out = fields_of row_1 /\
    (forall body, row_1 = body ++ [LF] -> has_no LF body -> out = row_1).
Proof.
  apply (@C5_short_row_unchanged two_columns
           (known_block (chars "t") 2) row_1 2).
  - repeat split; try reflexivity. vm_compute. discriminate.
  - reflexivity.
  - vm_compute. lia.
Defined.

Lemma C6_unknown_columns_pass_through_witness :
  written (snd (process_lines three_columns_of_t initial_state
                  (sample_header :: [row_123; row_1] ++ [terminator_line]))) =
    sample_header :: [row_123; row_1] ++
    written (snd (process_lines three_columns_of_t
                    (unknown_block (chars "t")) [terminator_line])) /\
  fst (process_lines three_columns_of_t initial_state
         (sample_header :: [row_123; row_1] ++ [terminator_line])) =
    fst (process_lines three_columns_of_t
           (unknown_block (chars "t")) [terminator_line]).
Proof.
  apply (@C6_unknown_columns_pass_through three_columns_of_t initial_state
           sample_header
           {| m_prefix := chars "COPY "; m_full_table := chars "t";
              m_spacer := chars " "; m_orig_cols := chars "a, b, old";
              m_suffix := chars " FROM stdin;" |}
           [row_123; row_1] [terminator_line]).
  - reflexivity.
  - reflexivity.
  - repeat constructor; vm_compute; discriminate.
Defined.

Lemma C7_terminator_closes_block_witness :
  process_line two_columns (unknown_block (chars "t")) terminator_line =
    (initial_state,
     [Write terminator_line; Print (FinishedBlock (Some (chars "t")))]).
Proof.
  apply (@C7_terminator_closes_block two_columns
           (unknown_block (chars "t")) terminator_line).
  - reflexivity.
  - reflexivity.
Defined.

Lemma C8_outside_block_passthrough_witness :
  process_line two_columns initial_state statement_line =
    (initial_state, [Write statement_line]).
Proof.
  apply (@C8_outside_block_passthrough two_columns initial_state
           statement_line).
  - reflexivity.
  - reflexivity.
Defined.

Lemma C9_second_pass_changes_nothing_witness :
  main two_columns (main two_columns sample_dump) =
  main two_columns sample_dump.
Proof.
  apply (@C9_second_pass_changes_nothing two_columns).
  intros t. repeat constructor.
Defined.

(** C9 as stated fails: with a column name that closes the parenthesis,
    the header that the first pass writes matches the pattern with another
    suffix, and the second pass writes another header. *)
Lemma C9_counterexample :
  main closing_column (main closing_column sample_header) <>
  main closing_column sample_header.
Proof. vm_compute. discriminate. Qed.

(** A line break in a column name splits the rewritten header in two
    lines, which the second pass reads as rows of the block before. *)
Example line_break_in_column_name :
  main broken_column (main broken_column two_headers) <>
  main broken_column two_headers.
Proof. vm_compute. discriminate. Qed.

Lemma C10_rewritten_header_witness :
  let m := {| m_prefix := chars "COPY "; m_full_table := chars "t";
              m_spacer := chars " "; m_orig_cols := chars "a, b, old";
              m_suffix := chars " FROM stdin;" |} in
  process_line two_columns initial_state sample_header =
    (known_block (chars "t") 2,
     [Write (chars "COPY t (a, b) FROM stdin;" ++ [LF]);
      Print (Rewrote (chars "t") 2)]) /\
  exists w rest,
    sample_header = w ++ rest /\ header_shape w m /\
    w = chars "COPY t (a, b, old) FROM stdin;".
Proof.
  apply (@C10_rewritten_header two_columns initial_state sample_header
           {| m_prefix := chars "COPY "; m_full_table := chars "t";
              m_spacer := chars " "; m_orig_cols := chars "a, b, old";
              m_suffix := chars " FROM stdin;" |}).
  - reflexivity.
  - discriminate.
Defined.

(** * The lookup *)

(** ** Stripping *)

Lemma lstrip_all p s : forallb p s = true -> lstrip p s = [].
Proof.
  induction s as [|c s IH]; simpl; [reflexivity|].
  intros H. apply andb_true_iff in H. destruct H as [-> H]. auto.
Qed.

Lemma lstrip_app_run p (t s : str) :
  forallb p t = true -> lstrip p (t ++ s) = lstrip p s.
Proof.
  induction t as [|c t IH]; simpl; [reflexivity|].
  intros H. apply andb_true_iff in H. destruct H as [-> H]. auto.
Qed.

Lemma rstrip_app_run p (s t : str) :
  forallb p t = true -> rstrip p (s ++ t) = rstrip p s.
Proof.
  intros H. unfold rstrip. rewrite rev_app_distr.
  rewrite lstrip_app_run; [reflexivity|]. now rewrite forallb_rev.
Qed.

Lemma rstrip_stops p s : stops p (rev s) -> rstrip p s = s.
Proof.
  intros H. unfold rstrip. rewrite (lstrip_stops _ _ H).
  apply rev_involutive.
Qed.

(** What [strip] removes is white space at the two ends. *)
Lemma strip_spec s :
  exists t1 t2, s = t1 ++ strip s ++ t2 /\
    forallb isspace t1 = true /\ forallb isspace t2 = true.
Proof.
  unfold strip.
  destruct (lstrip_spec isspace s) as (t1 & E1 & P1 & _).
  destruct (rstrip_spec isspace (lstrip isspace s)) as (t2 & E2 & P2).
  exists t1, t2. repeat split; auto. now rewrite <- E2.
Qed.

Lemma strip_trimmed (t1 b t2 : str) :
  trimmed b -> forallb isspace t1 = true -> forallb isspace t2 = true ->
  strip (t1 ++ b ++ t2) = b.
Proof.
  intros (N & S1 & S2) P1 P2. unfold strip.
  rewrite lstrip_app_run by assumption.
  rewrite lstrip_stops.
  - rewrite rstrip_app_run by assumption. now apply rstrip_stops.
  - destruct b as [|c b]; [congruence|]. exact S1.
Qed.

Lemma strip_blank s : strip s = [] <-> forallb isspace s = true.
Proof.
  split.
  - intros E. destruct (strip_spec s) as (t1 & t2 & S & P1 & P2).
    rewrite E in S. rewrite S. simpl. now rewrite forallb_app, P1, P2.
  - intros H. unfold strip. now rewrite lstrip_all.
Qed.

Lemma strip_incl s c : In c (strip s) -> In c s.
Proof.
  intros I. destruct (strip_spec s) as (t1 & t2 & S & _).
  rewrite S. apply in_or_app. right. apply in_or_app. now left.
Qed.

Lemma stops_app_nonempty p (x y : str) : x <> [] -> stops p (x ++ y) <-> stops p x.
Proof. destruct x; [congruence|]. reflexivity. Qed.

(** A stripped string is empty or has no white space at either end. *)
Lemma strip_ends s : strip s = [] \/ trimmed (strip s).
Proof.
  destruct (strip s) as [|c r] eqn:E; [now left|]. right.
  rewrite <- E. split; [congruence|]. unfold strip in *.
  destruct (lstrip_spec isspace s) as (_ & _ & _ & S1).
  destruct (rstrip_spec isspace (lstrip isspace s)) as (t2 & E2 & _).
  split.
  - rewrite E2 in S1. rewrite E in *. exact S1.
  - unfold rstrip. rewrite rev_involutive.
    destruct (lstrip_spec isspace (rev (lstrip isspace s))) as (_ & _ & _ & S).
    exact S.
Qed.

Lemma strip_idem s : strip (strip s) = strip s.
Proof.
  destruct (strip_ends s) as [E|T].
  - rewrite E. reflexivity.
  - pose proof (@strip_trimmed [] (strip s) [] T eq_refl eq_refl) as X.
    simpl in X. now rewrite app_nil_r in X.
Qed.

(** ** Splitting a joined list *)

Lemma split_app_no_sep sep (s x : str) :
  has_no sep s ->
  split sep (s ++ x) =
    match split sep x with
    | f :: fs => (s ++ f) :: fs
    | [] => [s]
    end.
Proof.
  induction s as [|c s IH]; intros H; simpl.
  - destruct (split sep x) eqn:E; [|reflexivity].
    now apply split_not_nil in E.
  - destruct (Ascii.eqb c sep) eqn:E.
    + apply Ascii.eqb_eq in E. subst. exfalso. apply H. now left.
    + rewrite IH by (intros I; apply H; now right).
      destruct (split sep x); reflexivity.
Qed.

Lemma split_join_spaced sep (s : str) names : forall n,
  has_no sep s -> has_no sep n -> Forall (has_no sep) names ->
  split sep (join (sep :: s) (n :: names)) = n :: map (app s) names.
Proof.
  induction names as [|m r IH]; intros n Hs Hn F.
  - simpl. now apply split_no_sep.
  - inversion F; subst. rewrite join_cons.
    change (n ++ (sep :: s) ++ join (sep :: s) (m :: r))
      with (n ++ sep :: (s ++ join (sep :: s) (m :: r))).
    rewrite split_app_sep by assumption.
    rewrite split_app_no_sep by assumption.
    now rewrite IH.
Qed.

Lemma trimmed_join sep names : forall n,
  trimmed n -> Forall trimmed names -> trimmed (join sep (n :: names)).
Proof.
  induction names as [|m r IH]; intros n T F; [exact T|].
  inversion F; subst. rewrite join_cons.
  destruct T as (N & S1 & S2).
  destruct (IH m H1 H2) as (NJ & _ & SJ).
  split; [|split].
  - destruct n; [congruence|discriminate].
  - now apply stops_app_nonempty.
  - rewrite !rev_app_distr, <- app_assoc. apply stops_app_nonempty; [|exact SJ].
    intros E. apply (f_equal (@rev _)) in E. rewrite rev_involutive in E.
    contradiction.
Qed.

(** ** [get_target_columns] *)

Lemma has_char_In c s : Resolver.has_char c s = true <-> In c s.
Proof.
  unfold Resolver.has_char. rewrite existsb_exists. split.
  - intros (x & I & E). apply Ascii.eqb_eq in E. now subst.
  - intros I. exists c. split; [exact I|apply Ascii.eqb_refl].
Qed.

Lemma split_once_spec sep s :
  In sep s ->
  s = fst (Resolver.split_once sep s) ++ sep :: snd (Resolver.split_once sep s)
  /\ has_no sep (fst (Resolver.split_once sep s)).
Proof.
  induction s as [|c s IH]; intros I; [destruct I|]. simpl.
  destruct (Ascii.eqb c sep) eqn:E.
  - apply Ascii.eqb_eq in E. subst. simpl. split; [reflexivity|intros []].
  - destruct I as [->|I]; [now rewrite Ascii.eqb_refl in E|].
    destruct (IH I) as [E1 E2].
    destruct (Resolver.split_once sep s) as [a b]. simpl in *.
    split; [now f_equal|].
    intros [->|J]; [now rewrite Ascii.eqb_refl in E|contradiction].
Qed.

(** X1: a qualified name is cut at its first dot: the schema is what comes
    before it and has no dot, the table is all that comes after it, further
    dots included. *)
Theorem X1_qualified_name_cut_at_first_dot full_table :
  In "."%char full_table ->
  full_table =
    fst (Resolver.schema_and_table full_table) ++ chars "."
      ++ snd (Resolver.schema_and_table full_table) /\
  has_no "." (fst (Resolver.schema_and_table full_table)).
Proof.
  intros I. unfold Resolver.schema_and_table.
  rewrite (proj2 (has_char_In _ _) I). now apply split_once_spec.
Qed.

(** X2: a name without a dot is looked up in the schema public: the lookup
    runs the same command, and gives the same result, as for the name
    qualified with public. *)
Theorem X2_unqualified_name_is_public check_output t container user db :
  has_no "." t ->
  Resolver.cmd_of t container user db =
    Resolver.cmd_of (chars "public." ++ t) container user db /\
  Resolver.get_target_columns check_output t container user db =
    Resolver.get_target_columns check_output (chars "public." ++ t)
      container user db.
Proof.
  intros H.
  assert (E : Resolver.cmd_of t container user db =
              Resolver.cmd_of (chars "public." ++ t) container user db).
  { unfold Resolver.cmd_of, Resolver.schema_and_table.
    destruct (Resolver.has_char "." t) eqn:C.
    - apply has_char_In in C. contradiction.
    - reflexivity. }
  split; [exact E|]. unfold Resolver.get_target_columns. now rewrite E.
Qed.

Section LookupFacts.
Variable check_output : list str -> Resolver.completed.
Variables full_table container user db : str.

(** X3: the lookup returns no column exactly when the command fails or
    prints nothing but white space, and it writes to the error stream
    exactly when the command fails. *)
Theorem X3_no_columns_iff_failed_or_blank :
  let r := Resolver.get_target_columns check_output full_table container
             user db in
  let c := check_output (Resolver.cmd_of full_table container user db) in
  (fst r = [] <->
     (exists o, c = Resolver.CalledProcessError o) \/
     (exists o, c = Resolver.Exit0 o /\ forallb isspace o = true)) /\
  (snd r = [] <-> exists o, c = Resolver.Exit0 o).
Proof.
  unfold Resolver.get_target_columns. cbv zeta.
  destruct (check_output _) as [o|o].
  - destruct (strip o) as [|x s] eqn:E.
    + apply strip_blank in E. simpl. split; split; eauto.
    + assert (B : forallb isspace o <> true).
      { intros B. apply strip_blank in B. congruence. }
      cbn [fst snd]. split; split; eauto.
      * intros X. apply map_eq_nil in X. now apply split_not_nil in X.
      * intros [(o' & X)|(o' & X & Y)]; [discriminate|].
        injection X as <-. contradiction.
  - simpl. split; split; eauto; try discriminate.
    intros (o' & X). discriminate.
Qed.

(** X4: a column name returned by the lookup holds no comma, has no white
    space at either end, and is made of characters that the command
    printed. *)
Theorem X4_columns_are_stripped_pieces col :
  In col (fst (Resolver.get_target_columns check_output full_table container
                 user db)) ->
  has_no "," col /\ strip col = col /\
  exists o,
    check_output (Resolver.cmd_of full_table container user db) =
      Resolver.Exit0 o /\
    forall x, In x col -> In x o.
Proof.
  unfold Resolver.get_target_columns. cbv zeta.
  destruct (check_output _) as [o|o]; [|intros []].
  destruct (strip o) as [|x s] eqn:E; [intros []|].
  rewrite <- E. cbn [fst]. intros I. apply in_map_iff in I.
  destruct I as (piece & <- & I).
  pose proof (split_has_no "," (strip o)) as F.
  rewrite Forall_forall in F. specialize (F _ I).
  split; [|split].
  - intros J. apply F. now apply strip_incl.
  - apply strip_idem.
  - exists o. split; [reflexivity|]. intros y J.
    apply strip_incl. rewrite <- (join_split "," (strip o)).
    apply strip_incl in J. clear -I J.
    induction (split "," (strip o)) as [|f fs IH]; [destruct I|].
    destruct fs as [|g fs].
    + destruct I as [->|[]]. exact J.
    + rewrite join_cons. apply in_or_app. destruct I as [->|I]; [now left|].
      right. apply in_or_app. right. now apply IH.
Qed.

(** X5: when the command prints the names of the columns joined by
    comma-space, with white space around, as [string_agg] and [psql -t]
    do, the lookup returns these names, in order, provided that each name
    is not empty, has no white space at either end and holds no comma. *)
Theorem X5_lookup_reads_back_joined_names names (t1 t2 : str) :
  check_output (Resolver.cmd_of full_table container user db) =
    Resolver.Exit0 (t1 ++ join (chars ", ") names ++ t2) ->
  names <> [] -> Forall trimmed names -> Forall (has_no ",") names ->
  forallb isspace t1 = true -> forallb isspace t2 = true ->
  fst (Resolver.get_target_columns check_output full_table container
         user db) = names.
Proof.
  intros C N T F P1 P2. unfold Resolver.get_target_columns. cbv zeta.
  rewrite C. destruct names as [|n names]; [congruence|].
  inversion T as [|? ? Tn Ts]; subst. inversion F as [|? ? Fn Fs]; subst.
  rewrite (@strip_trimmed t1 _ t2 (trimmed_join (chars ", ") Tn Ts) P1 P2).
  pose proof (trimmed_join (chars ", ") Tn Ts) as (NJ & _).
  destruct (join (chars ", ") (n :: names)) as [|x s] eqn:E; [congruence|].
  rewrite <- E. cbn [fst].
  change (chars ", ") with ("," :: chars " ")%char.
  rewrite split_join_spaced; auto.
  - simpl map. f_equal.
    + pose proof (@strip_trimmed [] n [] Tn eq_refl eq_refl) as X.
      simpl in X. now rewrite app_nil_r in X.
    + rewrite map_map. clear -Ts.
      induction Ts as [|m r Tm _ IH]; [reflexivity|]. simpl. f_equal; [|exact IH].
      pose proof (@strip_trimmed (chars " ") m [] Tm eq_refl eq_refl) as X.
      now rewrite app_nil_r in X.
  - intros [X|[]]. discriminate.
Qed.

(** X6: when the command prints something else than white space, the
    lookup returns one column more than there are commas in the output:
    a comma inside a quoted name counts like any other. *)
Theorem X6_one_column_more_than_commas o :
  check_output (Resolver.cmd_of full_table container user db) =
    Resolver.Exit0 o ->
  forallb isspace o = false ->
  length (fst (Resolver.get_target_columns check_output full_table container
                 user db)) = S (count_occ ascii_dec o ","%char).
Proof.
  intros C B. unfold Resolver.get_target_columns. cbv zeta. rewrite C.
  destruct (strip o) as [|x s] eqn:E.
  - apply strip_blank in E. congruence.
  - rewrite <- E. cbn [fst]. rewrite length_map, length_split. f_equal.
    destruct (strip_spec o) as (t1 & t2 & S & P1 & P2).
    rewrite S at 2. rewrite !count_occ_app.
    assert (Z : forall t, forallb isspace t = true ->
                          count_occ ascii_dec t ","%char = 0).
    { intros t P. apply count_occ_not_In. intros I.
      rewrite forallb_forall in P. apply P in I. discriminate. }
    rewrite (Z _ P1), (Z _ P2). lia.
Qed.
End LookupFacts.

(** * The script *)

(** X7: [auto_detect_container] returns the first name of the list that
    [docker inspect] accepts, the names before it being all refused, and
    returns nothing exactly when every name is refused. *)
Theorem X7_first_container_that_exists check_output cs :
  match Script.auto_detect_container check_output cs with
  | Some c =>
      exists before after,
        cs = before ++ c :: after /\
        Script.inspect check_output c = true /\
        Forall (fun x => Script.inspect check_output x = false) before
  | None => Forall (fun x => Script.inspect check_output x = false) cs
  end.
Proof.
  induction cs as [|c cs IH]; simpl; [constructor|].
  destruct (Script.inspect check_output c) eqn:I.
  - exists [], cs. repeat split; auto.
  - destruct (Script.auto_detect_container check_output cs) as [d|].
    + destruct IH as (before & after & -> & Hd & F).
      exists (c :: before), after. repeat split; auto.
    + now constructor.
Qed.


Lemma put_other fs path content p :
  p <> path -> Script.put fs path content p = fs p.
Proof.
  intros N. unfold Script.put.
  destruct (str_eqb p path) eqn:E; [|reflexivity].
  apply str_eqb_eq in E. contradiction.
Qed.

Lemma put_same fs path content : Script.put fs path content path = Some content.
Proof.
  unfold Script.put. destruct (str_eqb path path) eqn:E; [reflexivity|].
  apply str_eqb_neq in E. congruence.
Qed.

(** X9: the only file that the script can change is the one named by its
    second argument, and only once the input file was opened and the
    output file could be opened for writing. *)
Theorem X9_only_the_output_file_changes env p :
  Script.files_after (Script.main env) p <> Script.files env p ->
  exists input_file,
    Script.args env = [input_file; p] /\
    Script.files env input_file <> None /\
    Script.can_write env p = true.
Proof.
  unfold Script.main.
  destruct (Script.args env) as [|i [|o [|x l]]];
    try (simpl; congruence).
  destruct (Script.files env i) as [content|] eqn:F; [|simpl; congruence].
  destruct (Script.can_write env o) eqn:W; [|simpl; congruence].
  intros H. assert (p = o).
  { destruct (list_eq_dec ascii_dec p o) as [E|N]; [exact E|].
    exfalso. apply H.
    destruct (Script.auto_detect_container _ _) as [c|].
    - destruct (process_lines _ _ _) as [st es]. simpl.
      now rewrite !put_other.
    - simpl. now rewrite put_other. }
  subst. exists i. rewrite F. repeat split; auto. discriminate.
Qed.

(** X10: when no known container exists, the script exits with status 1
    after it has opened the output file: that file is left empty, whatever
    it held, whereas a missing input file stops the script before the
    output file is touched. *)
Theorem X10_output_emptied_when_no_container env input_file output_file :
  Script.args env = [input_file; output_file] ->
  Script.can_write env output_file = true ->
  Script.auto_detect_container (Script.check_output env)
    Script.possible_containers = None ->
  Script.exit_code (Script.main env) = 1 /\
  (Script.files env input_file <> None ->
   Script.fatal_error (Script.main env) =
     Some (Script.NoContainer Script.possible_containers) /\
   Script.files_after (Script.main env) output_file = Some []) /\
  (Script.files env input_file = None ->
   Script.fatal_error (Script.main env) =
     Some (Script.ErrorOpeningInput input_file) /\
   Script.files_after (Script.main env) output_file =
     Script.files env output_file).
Proof.
  intros A W D. unfold Script.main. rewrite A.
  destruct (Script.files env input_file) as [content|].
  - rewrite W, D. simpl. rewrite put_same. repeat split; congruence.
  - simpl. repeat split; congruence.
Qed.


(** X12: when the same path is given as input and as output, the script
    still exits with status 0, but it has emptied the file before reading
    it: the loop reads no line and the file is left empty. *)
Theorem X12_same_file_is_emptied env path content container :
  Script.args env = [path; path] ->
  Script.files env path = Some content ->
  Script.can_write env path = true ->
  Script.auto_detect_container (Script.check_output env)
    Script.possible_containers = Some container ->
  Script.exit_code (Script.main env) = 0 /\
  Script.files_after (Script.main env) path = Some [] /\
  Script.stdout (Script.main env) =
    [Script.UsingContainer container;
     Script.TargetDatabase (Script.db_name_of container);
     Script.ProcessingBackup; Script.Complete path].
Proof.
  intros A F W D. unfold Script.main. rewrite A, F, W, D.
  rewrite put_same. simpl. rewrite put_same. auto.
Qed.

(** X13: of the two containers that the script knows, the first has
    priority and is queried in the database postgres; the development
    container is used, with the database wanderer_dev, only when the first
    does not exist. *)
Theorem X13_which_container_and_database check_output container :
  Script.auto_detect_container check_output Script.possible_containers =
    Some container ->
  (container = chars "wanderer-wanderer_db-1" /\
   Script.db_name_of container = chars "postgres") \/
  (Script.inspect check_output (chars "wanderer-wanderer_db-1") = false /\
   container = chars "wanderer_devcontainer-db-1" /\
   Script.db_name_of container = chars "wanderer_dev").
Proof.
  unfold Script.possible_containers.
  cbn [Script.auto_detect_container].
  destruct (Script.inspect check_output (chars "wanderer-wanderer_db-1")).
  - intros H. injection H as <-. left. split; reflexivity.
  - destruct (Script.inspect check_output _); [|discriminate].
    intros H. injection H as <-. right. repeat split; reflexivity.
Qed.

(** * More on the loop *)

Lemma concat_readlines s : concat (readlines s) = s.
Proof.
  induction s as [|c s IH]; simpl; [reflexivity|].
  destruct (Ascii.eqb c LF).
  - simpl. now rewrite IH.
  - destruct (readlines s) as [|l ls]; simpl in *; now rewrite <- IH.
Qed.

Lemma join_firstn_prefix_sep sep fs : forall n,
  0 < n ->
  exists q, join [sep] fs = join [sep] (firstn n fs) ++ q /\
            (q = [] \/ exists q', q = sep :: q').
Proof.
  induction fs as [|x l IH]; intros n Hn.
  - exists []. rewrite firstn_nil. auto.
  - destruct n as [|k]; [lia|].
    destruct l as [|y l].
    + exists []. simpl. rewrite firstn_nil, app_nil_r. auto.
    + destruct k as [|k].
      * exists (sep :: join [sep] (y :: l)). split; [reflexivity|eauto].
      * destruct (IH (S k)) as (q & E & Q); [lia|].
        exists q. split; [|exact Q].
        rewrite join_cons, E. cbn [firstn]. rewrite join_cons.
        now repeat rewrite <- app_assoc.
Qed.

Lemma In_split_incl sep s piece x :
  In piece (split sep s) -> In x piece -> In x s.
Proof.
  intros I J. rewrite <- (join_split sep s).
  induction (split sep s) as [|f fs IH]; [destruct I|].
  destruct fs as [|g fs].
  - destruct I as [->|[]]. exact J.
  - rewrite join_cons. apply in_or_app. destruct I as [->|I]; [now left|].
    right. apply in_or_app. right. now apply IH.
Qed.

Section LoopFacts.
Variable get_target_columns : str -> list str.

Lemma output_lines_next st line rest :
  exists st' out,
    step get_target_columns st line st' out /\
    output_lines get_target_columns st (line :: rest) =
      out :: output_lines get_target_columns st' rest.
Proof.
  destruct (process_line_step get_target_columns st line)
    as (st' & out & S & E1 & E2).
  exists st', out. split; [exact S|].
  now rewrite output_lines_cons, E1, E2.
Qed.

(** X14: the loop writes once for each line that it reads: the output
    has as many pieces as the input has lines, whatever the lookups
    return. *)
Theorem X14_one_write_per_line lines : forall st,
  length (output_lines get_target_columns st lines) = length lines.
Proof.
  induction lines as [|l ls IH]; intros st; [reflexivity|].
  destruct (output_lines_next st l ls) as (st' & out & _ & ->).
  simpl. now rewrite IH.
Qed.

Lemma output_lines_no_header lines : forall st,
  in_copy_block st = false ->
  Forall (fun l => copy_header_match l = None) lines ->
  output_lines get_target_columns st lines = lines.
Proof.
  induction lines as [|l ls IH]; intros st B F; [reflexivity|].
  inversion F as [|? ? M Fs]; subst.
  destruct (output_lines_next st l ls) as (st' & out & S & ->).
  destruct S as [m c cs M' G|m M' G|B' T|n [B' _] E|[B' _] E|_ _];
    try congruence.
  now rewrite IH.
Qed.

(** X15: a file in which no line matches the header pattern is copied as
    it is, up to the translation of its line ends, and no lookup decides
    anything in it. *)
Theorem X15_file_without_header_is_copied content :
  Forall (fun l => copy_header_match l = None) (file_lines content) ->
  main get_target_columns content = universal_newlines content.
Proof.
  intros F. unfold main.
  change (written (snd (process_lines get_target_columns initial_state
                          (file_lines content))))
    with (output_lines get_target_columns initial_state (file_lines content)).
  rewrite output_lines_no_header by auto.
  apply concat_readlines.
Qed.

(** X16: what is written for a data row of a block with a known count of
    at least one is the row that was read, cut at one of its tabs or not
    cut at all: the part that is kept is never changed. *)
Theorem X16_written_row_is_a_prefix st line n :
  data_row st line -> expected_col_count st = Some n -> 0 < n ->
  exists kept cut,
    process_line get_target_columns st line = (st, [Write (kept ++ [LF])]) /\
    row_of line = kept ++ cut /\
    (cut = [] \/ exists rest, cut = TAB :: rest).
Proof.
  intros D E Hn.
  destruct (join_firstn_prefix_sep TAB (fields_of line) Hn) as (q & J & Q).
  exists (join [TAB] (firstn n (fields_of line))), q.
  split; [exact (process_line_data_row get_target_columns D E)|].
  split; [|exact Q]. rewrite <- J. unfold fields_of. now rewrite join_split.
Qed.

(** X18: after any lines read from the start, the three state variables
    are in one of three forms: the initial values, outside any block; a
    current table with the number of its looked-up columns, which is not
    zero; or a current table whose lookup gave nothing, with the count
    unknown. *)
Theorem X18_state_forms lines :
  let st := fst (process_lines get_target_columns initial_state lines) in
  st = initial_state \/
  (exists t, get_target_columns t <> [] /\
             st = known_block t (length (get_target_columns t))) \/
  (exists t, get_target_columns t = [] /\ st = unknown_block t).
Proof.
  cbv zeta.
  assert (G : forall lines st,
    (st = initial_state \/
     (exists t, get_target_columns t <> [] /\
                st = known_block t (length (get_target_columns t))) \/
     (exists t, get_target_columns t = [] /\ st = unknown_block t)) ->
    let st' := fst (process_lines get_target_columns st lines) in
    st' = initial_state \/
    (exists t, get_target_columns t <> [] /\
               st' = known_block t (length (get_target_columns t))) \/
    (exists t, get_target_columns t = [] /\ st' = unknown_block t)).
  { clear. induction lines as [|l ls IH]; intros st H; [exact H|].
    cbv zeta. rewrite process_lines_cons. cbn [fst]. apply IH.
    destruct (process_line_step get_target_columns st l)
      as (st' & out & S & -> & _).
    destruct S as [m c cs M E|m M E|B T|n D E|D E|B M]; auto.
    - right. left. exists (m_full_table m). rewrite E. split; [discriminate|].
      reflexivity.
    - right. right. eauto. }
  apply G. now left.
Qed.

(** When no lookup returns a column, every line is written as it was
    read. *)
Lemma output_lines_without_columns lines : forall st,
  (forall t, get_target_columns t = []) ->
  (in_copy_block st = true -> expected_col_count st = None) ->
  output_lines get_target_columns st lines = lines.
Proof.
  induction lines as [|l ls IH]; intros st R I; [reflexivity|].
  destruct (output_lines_next st l ls) as (st' & out & S & ->).
  destruct S as [m c cs M G|m M G|B T|n [B _] E|D E|B M].
  - rewrite R in G. discriminate.
  - rewrite IH; auto.
  - rewrite IH; auto. discriminate.
  - rewrite (I B) in E. discriminate.
  - rewrite IH; auto.
  - rewrite IH; auto.
Qed.

Lemma main_without_columns content :
  (forall t, get_target_columns t = []) ->
  main get_target_columns content = universal_newlines content.
Proof.
  intros R. unfold main.
  change (written (snd (process_lines get_target_columns initial_state
                          (file_lines content))))
    with (output_lines get_target_columns initial_state (file_lines content)).
  rewrite output_lines_without_columns; auto; [|discriminate].
  apply concat_readlines.
Qed.
End LoopFacts.


(** * The loop with the lookups of the script *)

(** The characters of a column name are characters of the stripped
    output of the command. *)
Lemma lookup_column_chars env container t col :
  In col (Script.lookup env container t) ->
  exists cmd o,
    Script.check_output env cmd = Resolver.Exit0 o /\
    forall x, In x col -> In x (strip o).
Proof.
  unfold Script.lookup, Resolver.get_target_columns. cbv zeta.
  destruct (Script.check_output env _) as [o|o] eqn:C; [|intros []].
  destruct (strip o) as [|x s] eqn:E; [intros []|].
  rewrite <- E. cbn [fst]. intros I. apply in_map_iff in I.
  destruct I as (piece & <- & I).
  eexists _, o. split; [exact C|]. intros y J.
  apply strip_incl in J. eapply In_split_incl; eassumption.
Qed.

Lemma lookup_plain env container :
  (forall cmd o, Script.check_output env cmd = Resolver.Exit0 o ->
                 forallb column_char (strip o) = true) ->
  plain_columns (Script.lookup env container).
Proof.
  intros H t. apply Forall_forall. intros col I.
  destruct (lookup_column_chars _ _ _ _ I) as (cmd & o & C & S).
  specialize (H _ _ C). rewrite forallb_forall in *. auto.
Qed.

(** X19: when no command prints, between the white space at its two
    ends, a closing parenthesis or a line break, the loop run with the
    lookups of the script gives back its own output: rewriting a rewritten
    dump changes nothing. *)
Theorem X19_rewriting_twice_with_the_lookups_of_the_script env container
    content :
  (forall cmd o, Script.check_output env cmd = Resolver.Exit0 o ->
                 forallb column_char (strip o) = true) ->
  main (Script.lookup env container)
       (main (Script.lookup env container) content) =
  main (Script.lookup env container) content.
Proof.
  intros H. pose proof (lookup_plain env container H) as P.
  set (r := Script.lookup env container) in *.
  change (concat (output_lines r initial_state
            (file_lines (concat (output_lines r initial_state
                                   (file_lines content))))) =
          concat (output_lines r initial_state (file_lines content))).
  pose proof (output_lines_wf P (file_lines_wf content) initial_state) as W.
  rewrite (file_lines_concat W). f_equal.
  apply output_lines_again; [exact P| |now left].
  apply wf_lines_file_line, file_lines_wf.
Qed.

(** X20: when a container exists but every lookup command fails, the
    script still exits with status 0 and the output file is the input
    file copied, up to the translation of its line ends: no header and no
    row is changed. *)
Theorem X20_copy_when_lookups_fail env input_file output_file content
    container :
  Script.args env = [input_file; output_file] ->
  input_file <> output_file ->
  Script.files env input_file = Some content ->
  Script.can_write env output_file = true ->
  Script.auto_detect_container (Script.check_output env)
    Script.possible_containers = Some container ->
  (forall t, exists e,
     Script.check_output env
       (Resolver.cmd_of t container Script.db_user
          (Script.db_name_of container)) = Resolver.CalledProcessError e) ->
  Script.exit_code (Script.main env) = 0 /\
  Script.files_after (Script.main env) output_file =
    Some (universal_newlines content).
Proof.
  intros A N F W D L.
  assert (R : forall t, Script.lookup env container t = []).
  { intros t. unfold Script.lookup, Resolver.get_target_columns. cbv zeta.
    destruct (L t) as (e & ->). reflexivity. }
  rewrite <- (main_without_columns _ content R).
  unfold Script.main, main. rewrite A, F, W, D.
  rewrite (put_other _ _ N), F.
  destruct (process_lines _ _ _) as [st es]. simpl.
  now rewrite put_same.
Qed.

(** * The further properties on samples *)

Lemma X1_qualified_name_cut_at_first_dot_witness :
  chars "a.b.c" =
    fst (Resolver.schema_and_table (chars "a.b.c")) ++ chars "."
      ++ snd (Resolver.schema_and_table (chars "a.b.c")) /\
  has_no "." (fst (Resolver.schema_and_table (chars "a.b.c"))).
Proof.
  apply (@X1_qualified_name_cut_at_first_dot (chars "a.b.c")).
  simpl. auto.
Defined.

Lemma X2_unqualified_name_is_public_witness :
  Resolver.cmd_of (chars "t") (chars "c") (chars "postgres") (chars "d") =
    Resolver.cmd_of (chars "public." ++ chars "t") (chars "c")
      (chars "postgres") (chars "d") /\
  Resolver.get_target_columns answers_a_b (chars "t") (chars "c")
    (chars "postgres") (chars "d") =
    Resolver.get_target_columns answers_a_b (chars "public." ++ chars "t")
      (chars "c") (chars "postgres") (chars "d").
Proof.
  apply (@X2_unqualified_name_is_public answers_a_b (chars "t")).
  intros [H|[]]. discriminate.
Defined.

Lemma X4_columns_are_stripped_pieces_witness :
  has_no "," (chars "b") /\ strip (chars "b") = chars "b" /\
  exists o,
    answers_a_b
      (Resolver.cmd_of (chars "t") (chars "c") (chars "postgres") (chars "d"))
      = Resolver.Exit0 o /\
    forall x, In x (chars "b") -> In x o.
Proof.
  apply (@X4_columns_are_stripped_pieces answers_a_b (chars "t") (chars "c")
           (chars "postgres") (chars "d") (chars "b")).
  right. left. reflexivity.
Defined.

Lemma X5_lookup_reads_back_joined_names_witness :
  fst (Resolver.get_target_columns answers_a_b (chars "t") (chars "c")
         (chars "postgres") (chars "d")) = [chars "a"; chars "b"].
Proof.
  apply (@X5_lookup_reads_back_joined_names answers_a_b (chars "t")
           (chars "c") (chars "postgres") (chars "d")
           [chars "a"; chars "b"] (chars " ") [LF; LF]).
  - reflexivity.
  - discriminate.
  - repeat constructor; discriminate.
  - repeat constructor; intros [H|[]]; discriminate.
  - reflexivity.
  - reflexivity.
Defined.

Lemma X6_one_column_more_than_commas_witness :
  length (fst (Resolver.get_target_columns answers_a_b (chars "t")
                 (chars "c") (chars "postgres") (chars "d"))) =
  S (count_occ ascii_dec (chars " a, b" ++ [LF] ++ [LF]) ","%char).
Proof.
  apply (@X6_one_column_more_than_commas answers_a_b (chars "t") (chars "c")
           (chars "postgres") (chars "d")).
  - reflexivity.
  - reflexivity.
Defined.

Lemma X9_only_the_output_file_changes_witness :
  exists input_file,
    Script.args sample_env = [input_file; chars "out.sql"] /\
    Script.files sample_env input_file <> None /\
    Script.can_write sample_env (chars "out.sql") = true.
Proof.
  apply (@X9_only_the_output_file_changes sample_env (chars "out.sql")).
  vm_compute. discriminate.
Defined.

Lemma X10_output_emptied_when_no_container_witness :
  Script.exit_code (Script.main no_container_env) = 1 /\
  (Script.files no_container_env (chars "in.sql") <> None ->
   Script.fatal_error (Script.main no_container_env) =
     Some (Script.NoContainer Script.possible_containers) /\
   Script.files_after (Script.main no_container_env) (chars "out.sql") =
     Some []) /\
  (Script.files no_container_env (chars "in.sql") = None ->
   Script.fatal_error (Script.main no_container_env) =
     Some (Script.ErrorOpeningInput (chars "in.sql")) /\
   Script.files_after (Script.main no_container_env) (chars "out.sql") =
     Script.files no_container_env (chars "out.sql")).
Proof.
  apply (@X10_output_emptied_when_no_container no_container_env
           (chars "in.sql") (chars "out.sql")).
  - reflexivity.
  - reflexivity.
  - reflexivity.
Defined.


Lemma X12_same_file_is_emptied_witness :
  Script.exit_code (Script.main same_file_env) = 0 /\
  Script.files_after (Script.main same_file_env) (chars "in.sql") = Some [] /\
  Script.stdout (Script.main same_file_env) =
    [Script.UsingContainer (chars "wanderer-wanderer_db-1");
     Script.TargetDatabase
       (Script.db_name_of (chars "wanderer-wanderer_db-1"));
     Script.ProcessingBackup; Script.Complete (chars "in.sql")].
Proof.
  apply (@X12_same_file_is_emptied same_file_env (chars "in.sql")
           sample_dump (chars "wanderer-wanderer_db-1")).
  - reflexivity.
  - reflexivity.
  - reflexivity.
  - reflexivity.
Defined.

Lemma X13_which_container_and_database_witness :
  (chars "wanderer-wanderer_db-1" = chars "wanderer-wanderer_db-1" /\
   Script.db_name_of (chars "wanderer-wanderer_db-1") = chars "postgres") \/
  (Script.inspect answers_a_b (chars "wanderer-wanderer_db-1") = false /\
   chars "wanderer-wanderer_db-1" = chars "wanderer_devcontainer-db-1" /\
   Script.db_name_of (chars "wanderer-wanderer_db-1") =
     chars "wanderer_dev").
Proof.
  apply (@X13_which_container_and_database answers_a_b
           (chars "wanderer-wanderer_db-1")).
  reflexivity.
Defined.

Lemma X15_file_without_header_is_copied_witness :
  main two_columns (statement_line ++ row_123) =
  universal_newlines (statement_line ++ row_123).
Proof.
  apply (@X15_file_without_header_is_copied two_columns
           (statement_line ++ row_123)).
  repeat constructor.
Defined.

Lemma X16_written_row_is_a_prefix_witness :
  exists kept cut,
    process_line two_columns (known_block (chars "t") 2) row_123 =
      (known_block (chars "t") 2, [Write (kept ++ [LF])]) /\
    row_of row_123 = kept ++ cut /\
    (cut = [] \/ exists rest, cut = TAB :: rest).
Proof.
  apply (@X16_written_row_is_a_prefix two_columns
           (known_block (chars "t") 2) row_123 2).
  - repeat split; try reflexivity. vm_compute. discriminate.
  - reflexivity.
  - lia.
Defined.

Lemma X19_rewriting_twice_with_the_lookups_of_the_script_witness :
  main (Script.lookup sample_env (chars "wanderer-wanderer_db-1"))
       (main (Script.lookup sample_env (chars "wanderer-wanderer_db-1"))
             sample_dump) =
  main (Script.lookup sample_env (chars "wanderer-wanderer_db-1"))
       sample_dump.
Proof.
  apply (@X19_rewriting_twice_with_the_lookups_of_the_script sample_env
           (chars "wanderer-wanderer_db-1") sample_dump).
  intros cmd o H. injection H as <-. reflexivity.
Defined.

Lemma X20_copy_when_lookups_fail_witness :
  Script.exit_code (Script.main database_down_env) = 0 /\
  Script.files_after (Script.main database_down_env) (chars "out.sql") =
    Some (universal_newlines sample_dump).
Proof.
  apply (@X20_copy_when_lookups_fail database_down_env (chars "in.sql")
           (chars "out.sql") sample_dump (chars "wanderer-wanderer_db-1")).
  - reflexivity.
  - discriminate.
  - reflexivity.
  - reflexivity.
  - reflexivity.
  - intros t. unfold Resolver.cmd_of.
    destruct (Resolver.schema_and_table t). eexists. reflexivity.
Defined.
